(** * Verification of the document-assembly pipeline of [core_to_be_split.py]

    A shallow embedding of the fragment renderer, the orchestrator
    [render_html], the split path and the atomic writer, followed by the
    theorems that settle the specification's claims and by further
    properties of the text helpers, the fragment renderer, the file writers
    and the orchestrator.

    Modelling conventions.
    - Python [str] is [string]; the text helpers treat the ASCII range the
      way Python does (the code points above 127 are left alone by
      [lower]/[upper] and are never white space here).
    - Python [int] is [Z].
    - An operation that may raise returns [exn A]: [Ok a] or [Raise msg],
      where [msg] is what [str(e)] gives in the handlers' f-strings.
    - The file system is a finite map from path strings to file contents.
      [f.write] never raises; an atomic write can fail at [open], inside the
      writer callback, or at [os.replace].
    - Names bound by the [try: from .x import ... except: <fallback>] blocks
      at the top of the module are fields of one record [Env]; [src_env]
      holds the fallbacks written in the source. *)

From Stdlib Require Import ZArith Ascii String DecimalString.
From stdpp Require Import gmap strings list fin_maps sorting.

Local Open Scope Z_scope.

(** ** Text helpers *)

Module Text.

Definition dq : string := String "034"%char EmptyString.
Definition nl : string := String "010"%char EmptyString.

(** [str(n)] for a Python int. *)
Definition str_of_Z (z : Z) : string := NilZero.string_of_int (Z.to_int z).
Definition str_of_nat (n : nat) : string := str_of_Z (Z.of_nat n).

Definition code (c : ascii) : nat := nat_of_ascii c.

(** [str.isspace] on the ASCII range: TAB..CR, FS..US and the blank. *)
Definition is_space (c : ascii) : bool :=
  let n := code c in
  ((9 <=? n) && (n <=? 13) || (28 <=? n) && (n <=? 32))%nat.

Definition is_digit (c : ascii) : bool :=
  let n := code c in ((48 <=? n) && (n <=? 57))%nat.

Definition is_upper (c : ascii) : bool :=
  let n := code c in ((65 <=? n) && (n <=? 90))%nat.

Definition is_lower (c : ascii) : bool :=
  let n := code c in ((97 <=? n) && (n <=? 122))%nat.

Definition eqc (a b : ascii) : bool := Ascii.eqb a b.

Definition lower_char (c : ascii) : ascii :=
  if is_upper c then ascii_of_nat (code c + 32) else c.

Definition upper_char (c : ascii) : ascii :=
  if is_lower c then ascii_of_nat (code c - 32) else c.

Fixpoint map_chars (f : ascii -> ascii) (s : string) : string :=
  match s with
  | EmptyString => EmptyString
  | String c r => String (f c) (map_chars f r)
  end.

Definition lower : string -> string := map_chars lower_char.
Definition upper : string -> string := map_chars upper_char.

Fixpoint rev_str (s acc : string) : string :=
  match s with
  | EmptyString => acc
  | String c r => rev_str r (String c acc)
  end.

Fixpoint lstrip_by (p : ascii -> bool) (s : string) : string :=
  match s with
  | EmptyString => EmptyString
  | String c r => if p c then lstrip_by p r else s
  end.

Definition rstrip_by (p : ascii -> bool) (s : string) : string :=
  rev_str (lstrip_by p (rev_str s EmptyString)) EmptyString.

Definition strip_by (p : ascii -> bool) (s : string) : string :=
  rstrip_by p (lstrip_by p s).

(** [s.strip()] and [s.strip('-')]. *)
Definition strip : string -> string := strip_by is_space.
Definition strip_dash : string -> string := strip_by (eqc "-").

(** [s.replace(c, t)] for a one-character [c]. *)
Fixpoint replace_char (c : ascii) (t : string) (s : string) : string :=
  match s with
  | EmptyString => EmptyString
  | String a r =>
      if eqc a c then t +:+ replace_char c t r
      else String a (replace_char c t r)
  end.

(** [html.escape(s)] with its default [quote=True]. *)
Definition html_escape (s : string) : string :=
  let s := replace_char "&" "&amp;" s in
  let s := replace_char "<" "&lt;" s in
  let s := replace_char ">" "&gt;" s in
  let s := replace_char "034" "&quot;" s in
  replace_char "'" "&#x27;" s.

(** [_attr_escape]: the same five characters, in the source's order. *)
Definition _attr_escape (s : string) : string :=
  let s := replace_char "&" "&amp;" s in
  let s := replace_char "034" "&quot;" s in
  let s := replace_char "'" "&#x27;" s in
  let s := replace_char "<" "&lt;" s in
  replace_char ">" "&gt;" s.

(** [re.sub(r'<[^>]+>', '', s)].  [pending] holds the characters read since
    an unmatched '<'; they are dropped when '>' closes a non-empty tag and
    written back when the tag is empty or never closed. *)
Fixpoint strip_tags_from (s : string) (pending : option string) : string :=
  match s with
  | EmptyString =>
      match pending with
      | None => EmptyString
      | Some buf => String "<" buf
      end
  | String c r =>
      match pending with
      | None =>
          if eqc c "<" then strip_tags_from r (Some EmptyString)
          else String c (strip_tags_from r None)
      | Some buf =>
          if eqc c ">" then
            match buf with
            | EmptyString => String "<" (String ">" (strip_tags_from r None))
            | _ => strip_tags_from r None
            end
          else strip_tags_from r (Some (buf +:+ String c EmptyString))
      end
  end.

Definition strip_tags (s : string) : string := strip_tags_from s None.

(** [re.sub(r'\s+', ' ', s)]. *)
Fixpoint collapse_ws_from (s : string) (in_ws : bool) : string :=
  match s with
  | EmptyString => EmptyString
  | String c r =>
      if is_space c then
        if in_ws then collapse_ws_from r true
        else String " " (collapse_ws_from r true)
      else String c (collapse_ws_from r false)
  end.

Definition collapse_ws (s : string) : string := collapse_ws_from s false.

(** [len(s.split())]. *)
Fixpoint word_count_from (s : string) (in_word : bool) : nat :=
  match s with
  | EmptyString => 0%nat
  | String c r =>
      if is_space c then word_count_from r false
      else if in_word then word_count_from r true
      else S (word_count_from r true)
  end.

Definition word_count (s : string) : nat := word_count_from s false.

(** The number of iterations of [for _ in rf] over a text file opened with
    the default universal-newline translation. *)
Fixpoint count_lines_from (s : string) (partial : bool) : nat :=
  match s with
  | EmptyString => if partial then 1%nat else 0%nat
  | String c r =>
      if eqc c "010" then S (count_lines_from r false)
      else if eqc c "013" then
        match r with
        | String c' r' =>
            if eqc c' "010" then S (count_lines_from r' false)
            else S (count_lines_from r false)
        | EmptyString => 1%nat
        end
      else count_lines_from r true
  end.

Definition count_lines (s : string) : nat := count_lines_from s false.

Fixpoint str_take (n : nat) (s : string) : string :=
  match n, s with
  | S n', String c r => String c (str_take n' r)
  | _, _ => EmptyString
  end.

Definition str_len (s : string) : nat := String.length s.

Definition nonempty (s : string) : bool :=
  match s with EmptyString => false | _ => true end.

Fixpoint concat_str (l : list string) : string :=
  match l with
  | [] => EmptyString
  | s :: r => s +:+ concat_str r
  end.

(** [sep.join(l)]. *)
Fixpoint join (sep : string) (l : list string) : string :=
  match l with
  | [] => EmptyString
  | [s] => s
  | s :: r => s +:+ sep +:+ join sep r
  end.

(** Every character of [s] satisfies [p]. *)
Fixpoint all_chars (p : ascii -> bool) (s : string) : bool :=
  match s with
  | EmptyString => true
  | String c r => p c && all_chars p r
  end.

(** [name="value"], the way the f-strings of the renderer spell it. *)
Definition attr (name value : string) : string :=
  name +:+ "=" +:+ dq +:+ value +:+ dq.

(** *** The in-source [_sanitize_id] (the [except] branch of the import) *)

Definition id_char_ok (c : ascii) : bool :=
  is_lower c || is_upper c || is_digit c || eqc c "-" || eqc c "_".

(** [re.sub(r'[^a-zA-Z0-9\-_]+', '-', s)]. *)
Fixpoint sub_bad_runs (s : string) (in_run : bool) : string :=
  match s with
  | EmptyString => EmptyString
  | String c r =>
      if id_char_ok c then String c (sub_bad_runs r false)
      else if in_run then sub_bad_runs r true
      else String "-" (sub_bad_runs r true)
  end.

(** [re.sub(r'-{2,}', '-', s)]. *)
Fixpoint collapse_dashes (s : string) (in_run : bool) : string :=
  match s with
  | EmptyString => EmptyString
  | String c r =>
      if eqc c "-" then
        if in_run then collapse_dashes r true
        else String "-" (collapse_dashes r true)
      else String c (collapse_dashes r false)
  end.

(** [_sanitize_id(x, idx)]; [idx_str] is [str(idx or 0)]. *)
Definition src_sanitize_id (x idx_str : string) : string :=
  let s := sub_bad_runs (lower (strip x)) false in
  let s := strip_dash (collapse_dashes s false) in
  if nonempty s then s else "id-" +:+ idx_str.

(** *** Patterns of the fragment renderer and of the orchestrator *)

(** [re.match(r'^\s*\d+[\.\)]', s)] succeeds. *)
Definition starts_enumerator (s : string) : bool :=
  let s1 := lstrip_by is_space s in
  let s2 := lstrip_by is_digit s1 in
  negb (str_len s2 =? str_len s1)%nat &&
  match s2 with
  | String c _ => eqc c "." || eqc c ")"
  | EmptyString => false
  end.

(** The section-heading test applied to the plain text of a first cell. *)
Definition is_heading (plain : string) : bool :=
  if starts_enumerator plain then true
  else (str_len plain <? 120)%nat && String.eqb (upper plain) plain
       && (word_count plain <=? 8)%nat && (2 <? str_len plain)%nat.

(** [s] starts with [p], ignoring ASCII case; gives what follows. *)
Fixpoint prefix_ci (p s : string) : option string :=
  match p with
  | EmptyString => Some s
  | String a p' =>
      match s with
      | String b s' =>
          if eqc (lower_char a) (lower_char b) then prefix_ci p' s' else None
      | EmptyString => None
      end
  end.

Definition tbody_tr_here (s : string) : bool :=
  match prefix_ci "<tbody>" s with
  | Some r =>
      match prefix_ci "<tr" (lstrip_by is_space r) with
      | Some _ => true
      | None => false
      end
  | None => false
  end.

(** [re.search(r'<tbody>\s*<tr', s, flags=re.IGNORECASE)] succeeds. *)
Fixpoint search_tbody_tr (s : string) : bool :=
  match s with
  | EmptyString => false
  | String _ r => tbody_tr_here s || search_tbody_tr r
  end.

End Text.

(** ** Data model *)

Module Core.
Import Text.

(** The outcome of a Python call that may raise. *)
Inductive exn (A : Type) : Type :=
  | Ok (a : A)
  | Raise (msg : string).
Arguments Ok {A} a.
Arguments Raise {A} msg.

(** A cell value: [None], a string or an integer. *)
Inductive scalar : Type :=
  | VNone
  | VStr (s : string)
  | VInt (z : Z).

(** [str(v)]. *)
Definition py_str (v : scalar) : string :=
  match v with
  | VNone => "None"
  | VStr s => s
  | VInt z => str_of_Z z
  end.

(** Truth value of [v] in a boolean context. *)
Definition truthy (v : scalar) : bool :=
  match v with
  | VNone => false
  | VStr s => nonempty s
  | VInt z => negb (z =? 0)
  end.

(** [str(val or "")]. *)
Definition str_or_empty (v : scalar) : string :=
  if truthy v then py_str v else "".

Definition row : Type := list scalar.

(** What one iterator over a table's rows does: it yields [s_rows] in order
    and then stops, or raises [msg] when [s_fail = Some msg]. *)
Record stream : Type := mkStream {
  s_rows : list row;
  s_fail : option string
}.

(** A TableSource.  [t_rows] is what every call of
    [df.itertuples(index=False)] iterates over. *)
Record table : Type := mkTable {
  t_title : option string;
  t_name : option string;
  t_columns : list string;
  t_rows : stream
}.

Inductive level : Type := Warn | Error.

(** A warning dict.  [w_table = None] when the dict has no "table" key,
    [Some None] when the key holds [None]. *)
Record warning : Type := mkWarning {
  w_level : level;
  w_msg : string;
  w_table : option (option Z);
  w_row : option nat;
  w_col : option nat
}.

#[export] Instance level_eq_dec : EqDecision level.
Proof. solve_decision. Defined.

#[export] Instance warning_eq_dec : EqDecision warning.
Proof. solve_decision. Defined.

(** [cancel_event] is the shared flag as the tasks observe it: applied to a
    table index and to the number of rows that task has consumed, it gives
    what [is_set()] answers at that row boundary. *)
Record RenderConfig : Type := mkConfig {
  split_threshold : Z;
  max_workers : Z;
  table_row_limit : Z;
  cancel_event : option (Z -> nat -> bool);
  gzip_out : bool;
  embed_assets : bool;
  page_title : option string
}.

(** The result dict of [render_html]; a field is [None] when the key is
    missing or holds [None].  [r_runtime_ms] is the elapsed time the clock
    of the environment gives. *)
Record RenderResult : Type := mkResult {
  r_warnings : list warning;
  r_tables : option nat;
  r_rows : option Z;
  r_parts : option (list string);
  r_output : option string;
  r_html : option string;
  r_runtime_ms : option Z
}.

(** A writer callback run on an open file: the chunks it wrote, whether it
    raised, and the captured Python state [S] it left behind. *)
Definition writer (S : Type) : Type := S -> (list string * exn unit) * S.

(** An output path, already split the way [pathlib] splits it. *)
Record OutPath : Type := mkOut {
  o_dir : string;
  o_stem : string;
  o_suffix : string
}.

Definition path_join (dir name : string) : string := dir +:+ "/" +:+ name.
Definition out_name (o : OutPath) : string := o_stem o +:+ o_suffix o.
Definition out_str (o : OutPath) : string := path_join (o_dir o) (out_name o).

(** The names bound by the optional imports, the standard-library matchers
    the orchestrator calls with fixed patterns, and the behaviour of the
    operating system during one run. *)
Record Env : Type := mkEnv {
  (* renderer.render *)
  render : string -> exn string;
  (* .sanitize *)
  _sanitize_html_whitelist : string -> exn string;
  _sanitize_id : string -> string -> string;
  (* .convert *)
  convert_bullets_to_ul : string -> exn string;
  _normalize_list_markers : string -> exn string;
  _unescape_brackets_outside_code : string -> exn string;
  _detect_column_types : list row -> list string -> exn (list string);
  _take_and_stream : stream -> nat -> exn (list row * stream);
  convert_render_table : option (table -> Z -> exn string);
  (* pandas: df.to_html(index=False, border=0, escape=True) *)
  to_html : table -> exn string;
  (* .io_utils *)
  _atomic_stream_write :
    option (gmap string string -> string -> writer (list warning) ->
            list warning -> (gmap string string * exn unit) * list warning);
  _atomic_write :
    option (gmap string string -> string -> writer unit ->
            unit -> (gmap string string * exn unit) * unit);
  (* html.unescape *)
  html_unescape : string -> string;
  (* re.search of the <h3 id=...> pattern: groups 1 and 2 *)
  search_title : string -> option (string * string);
  (* re.finditer of the section-heading pattern: groups 1 and 2 *)
  find_sections : string -> list (string * string);
  (* the asset phase of render_html: files written and warnings recorded *)
  provision_assets :
    gmap string string -> OutPath -> gmap string string * list warning;
  assets_dir_of : OutPath -> string;
  href_prefix_of : OutPath -> string;
  (* .assets: the embedded default style and script *)
  _EMBED_STYLE : string;
  _EMBED_SCRIPT : string;
  (* texts of the static client scripts, which assembly only appends:
     _minimal_shim_script(), _runtime_wiring_script(href_prefix) and
     _build_export_worker_script(href_prefix, template_js, user) *)
  _minimal_shim_script : string;
  _runtime_wiring_script : string -> string;
  _build_export_worker_script : string -> string -> string -> string;
  (* operating system *)
  open_error : string -> option string;
  replace_error : string -> string -> option string;
  mkdir_fails : string -> bool;
  rmtree_fails : string -> bool;
  (* gzip-copying the file at a path: the compressed bytes, or the error *)
  gzip_result : gmap string string -> string -> exn string;
  clock_s : Z;
  clock_ms : Z;
  elapsed_ms : Z;
  (* completion order of the pool's tasks, as positions in submission order *)
  completion_order : nat -> list nat
}.

(** ** The atomic writer *)

Section Pipeline.
Variable E : Env.

(** [_default_write_atomic(path, writer)]. *)
Definition _default_write_atomic {S : Type} (fs : gmap string string)
    (path : string) (w : writer S) (s : S)
  : (gmap string string * exn unit) * S :=
  let tmp := path +:+ ".tmp" in
  match open_error E tmp with
  | Some m => ((fs, Raise m), s)
  | None =>
      let '((chunks, res), s') := w s in
      let fs1 := <[tmp := concat_str chunks]> fs in
      match res with
      | Raise m => ((fs1, Raise m), s')
      | Ok _ =>
          match replace_error E tmp path with
          | Some m => ((fs1, Raise m), s')
          | None => ((<[path := concat_str chunks]> (delete tmp fs1), Ok tt), s')
          end
      end
  end.

(** ** The fragment renderer *)

(** [_prepare_table_stream(df)]. *)
Definition _prepare_table_stream (df : table)
  : list string * list row * stream :=
  let cols := t_columns df in
  match _take_and_stream E (t_rows df) 100 with
  | Ok (buf, it2) => (cols, buf, it2)
  | Raise _ =>
      match s_fail (t_rows df) with
      | None =>
          let all_rows := s_rows (t_rows df) in
          (cols, take 100 all_rows, mkStream all_rows None)
      | Some _ => (cols, [], t_rows df)
      end
  end.

(** [v in (None, "")]. *)
Definition is_blank_value (v : scalar) : bool :=
  match v with
  | VNone => true
  | VStr s => negb (nonempty s)
  | VInt _ => false
  end.

Fixpoint first_nonblank (r : row) : option scalar :=
  match r with
  | [] => None
  | v :: r' => if is_blank_value v then first_nonblank r' else Some v
  end.

(** A text that Python treats as false: [None] or the empty string. *)
Definition blank (t : option string) : bool :=
  match t with
  | Some s => negb (nonempty s)
  | None => true
  end.

(** [_derive_titles]: (title_text, display_title, title_id, title_html). *)
Definition _derive_titles (idx : Z) (cols : list string)
    (sample_rows : list row) (df : table)
  : string * string * string * string :=
  let t0 :=
    match t_title df with
    | Some s => if nonempty s then Some (strip s) else
        match t_name df with
        | Some n => if nonempty n then Some (strip n) else None
        | None => None
        end
    | None =>
        match t_name df with
        | Some n => if nonempty n then Some (strip n) else None
        | None => None
        end
    end in
  let t1 :=
    if blank t0 then
      match sample_rows with
      | first :: _ =>
          let cand :=
            match first with
            | VNone :: _ => first_nonblank first
            | v :: _ => Some v
            | [] => first_nonblank first
            end in
          match cand with
          | Some v => Some (strip (py_str v))
          | None => t0
          end
      | [] => t0
      end
    else t0 in
  let t2 :=
    if blank t1 then
      match cols with
      | c :: _ => Some (strip c)
      | [] => t1
      end
    else t1 in
  let t3 :=
    match t2 with
    | Some s => if nonempty s then s else "Table " +:+ str_of_Z idx
    | None => "Table " +:+ str_of_Z idx
    end in
  let title_text := strip (collapse_ws t3) in
  let display_title :=
    if (str_len title_text <=? 120)%nat then title_text
    else str_take 117 title_text +:+ "..." in
  let title_id := _sanitize_id E display_title (str_of_Z idx) in
  let title_html :=
    match render E display_title with
    | Ok h => h
    | Raise _ => html_escape display_title
    end in
  (title_text, display_title, title_id, title_html).

(** [_safe_caption]. *)
Definition _safe_caption (text : string) : string :=
  let s := strip text in
  if nonempty s then html_escape (strip_tags s) else "".

(** The header loop before the writer: rendered labels and the escaped
    plain labels used for [data-label]. *)
Definition header_html (c : string) : string :=
  match render E c with
  | Ok h => h
  | Raise _ => html_escape c
  end.

Definition header_plain_label (rendered : string) : string :=
  _attr_escape (strip (html_unescape E (strip_tags rendered))).

(** One header cell as the [thead] loop computes it, before formatting. *)
Record th_cell : Type := mkTh {
  th_id : string;
  th_class : string;
  th_table_index : Z;
  th_col_index : nat;
  th_aria : string;
  th_label : string
}.

Definition header_cell (idx : Z) (table_id : string) (i : nat)
    (col col_type label_html : string) : th_cell :=
  {| th_id := table_id +:+ "-th-" +:+ str_of_nat i;
     th_class := "col-" +:+ col_type;
     th_table_index := idx - 1;
     th_col_index := i;
     th_aria := _attr_escape ("Sort by " +:+ html_escape (strip_tags col));
     th_label := label_html |}.

(** The six [f.write] calls of one iteration of the [thead] loop. *)
Definition th_writes (c : th_cell) : list string :=
  [ "<th " +:+ attr "id" (th_id c) +:+ " " +:+ attr "class" (th_class c)
      +:+ " " +:+ attr "data-table-index" (str_of_Z (th_table_index c))
      +:+ " " +:+ attr "data-col-index" (str_of_nat (th_col_index c))
      +:+ " " +:+ attr "role" "button"
      +:+ " " +:+ attr "aria-label" (th_aria c) +:+ ">";
    "<div " +:+ attr "class" "th-with-sort" +:+ ">";
    "<div " +:+ attr "class" "th-label" +:+ ">" +:+ th_label c +:+ "</div>";
    "<button " +:+ attr "type" "button"
      +:+ " " +:+ attr "class" "sort-btn sort-state-0"
      +:+ " " +:+ attr "data-table-index" (str_of_Z (th_table_index c))
      +:+ " " +:+ attr "data-col-index" (str_of_nat (th_col_index c))
      +:+ " " +:+ attr "title" "Toggle sort"
      +:+ " " +:+ attr "aria-label" "Toggle sort" +:+ ">"
      +:+ "<span " +:+ attr "class" "sort-icon"
      +:+ " " +:+ attr "aria-hidden" "true" +:+ "></span></button>";
    "</div>";
    "</th>" ].

(** [for i, col in enumerate(cols)]: the cells written, and the IndexError
    of [col_types[i]] when the type list is too short.  [cols] pairs each
    column with its rendered label. *)
Fixpoint thead_cells (idx : Z) (table_id : string) (col_types : list string)
    (i : nat) (cols : list (string * string)) : list th_cell * exn unit :=
  match cols with
  | [] => ([], Ok tt)
  | (col, label_html) :: rest =>
      match col_types !! i with
      | None => ([], Raise "list index out of range")
      | Some ct =>
          let '(cells, res) := thead_cells idx table_id col_types (S i) rest in
          (header_cell idx table_id i col ct label_html :: cells, res)
      end
  end.

Definition warn_canceled (idx : Z) : warning :=
  mkWarning Warn "canceled" (Some (Some idx)) None None.

Definition warn_row_limit (idx : Z) (r_idx : nat) : warning :=
  mkWarning Warn "table_row_limit exceeded" (Some (Some idx)) (Some r_idx) None.

Definition warn_markdown (idx : Z) (r_idx col_i : nat) : warning :=
  mkWarning Warn "markdown render failed" (Some (Some idx))
    (Some r_idx) (Some col_i).

Definition warn_cell (msg : string) (idx : Z) (r_idx col_i : nat) : warning :=
  mkWarning Warn ("cell render failed: " +:+ msg) (Some (Some idx))
    (Some r_idx) (Some col_i).

Definition warn_row_iteration (msg : string) (idx : Z) : warning :=
  mkWarning Error ("row iteration failed: " +:+ msg) (Some (Some idx)) None None.

Definition warn_fragment_write (msg : string) (idx : Z) : warning :=
  mkWarning Error ("fragment write failed: " +:+ msg) (Some (Some idx)) None None.

(** [_normalize_list_markers(convert_bullets_to_ul(raw))]. *)
Definition cell_source (raw : string) : exn string :=
  match convert_bullets_to_ul E raw with
  | Ok a => _normalize_list_markers E a
  | Raise m => Raise m
  end.

(** The body of [for col_i, val in enumerate(row)]: the [<td>] appended to
    [cells] and the warnings appended to [frag_warnings]. *)
Definition render_cell (render_html_flag : bool) (idx : Z) (table_id : string)
    (labels : list string) (r_idx : nat) (first_col_raw : option string)
    (col_i : nat) (val : scalar) : string * list warning :=
  let raw := match val with VNone => "" | _ => py_str val end in
  let '(h0, ws) :=
    match cell_source raw with
    | Ok cell_src =>
        let '(h, ws) :=
          if render_html_flag then
            match render E cell_src with
            | Ok h => (h, [])
            | Raise _ => (html_escape cell_src, [warn_markdown idx r_idx col_i])
            end
          else (html_escape cell_src, []) in
        (match _unescape_brackets_outside_code E h with
         | Ok u => u
         | Raise _ => h
         end, ws)
    | Raise m => (html_escape (str_or_empty val), [warn_cell m idx r_idx col_i])
    end in
  let h1 :=
    match _sanitize_html_whitelist E h0 with
    | Ok s => if nonempty s then s else html_escape (str_or_empty val)
    | Raise _ => html_escape (str_or_empty val)
    end in
  let data_label :=
    match labels !! col_i with
    | Some l => l
    | None => _attr_escape ""
    end in
  let h2 :=
    match col_i, first_col_raw with
    | O, Some fc =>
        if nonempty fc then
          let plain := strip (strip_tags h1) in
          if is_heading plain then
            let section_id :=
              _sanitize_id E (table_id +:+ "-section-" +:+ plain)
                (str_of_Z idx +:+ "-" +:+ str_of_nat r_idx) in
            "<div " +:+ attr "class" "section-heading" +:+ " "
              +:+ attr "id" section_id +:+ ">" +:+ h1 +:+ "</div>"
          else h1
        else h1
    | _, _ => h1
    end in
  ("<td " +:+ attr "data-label" data_label +:+ ">" +:+ h2 +:+ "</td>", ws).

Fixpoint render_cells (render_html_flag : bool) (idx : Z) (table_id : string)
    (labels : list string) (r_idx : nat) (first_col_raw : option string)
    (col_i : nat) (vals : row) : list string * list warning :=
  match vals with
  | [] => ([], [])
  | v :: rest =>
      let '(td, ws) :=
        render_cell render_html_flag idx table_id labels r_idx
          first_col_raw col_i v in
      let '(tds, ws') :=
        render_cells render_html_flag idx table_id labels r_idx
          first_col_raw (S col_i) rest in
      (td :: tds, ws ++ ws')
  end.

(** One data row: the text of its single [f.write] and its warnings. *)
Definition render_row (render_html_flag : bool) (idx : Z) (table_id : string)
    (labels : list string) (r_idx : nat) (r : row) : string * list warning :=
  let first_col_raw :=
    match r with
    | VNone :: _ => Some ""
    | v :: _ => Some (py_str v)
    | [] => None
    end in
  let '(cells, ws) :=
    render_cells render_html_flag idx table_id labels r_idx first_col_raw 0 r in
  ("<tr>" +:+ concat_str cells +:+ "</tr>", ws).

(** [cfg.cancel_event and cfg.cancel_event.is_set()] at a row boundary. *)
Definition cancel_observed (cfg : RenderConfig) (idx : Z) (consumed : nat)
  : bool :=
  match cancel_event cfg with
  | Some is_set => is_set idx consumed
  | None => false
  end.

(** [table_row_limit and r_idx > table_row_limit]. *)
Definition over_limit (cfg : RenderConfig) (r_idx : nat) : bool :=
  negb (table_row_limit cfg =? 0) && (table_row_limit cfg <? Z.of_nat r_idx).

(** What the row loop leaves behind: the final [r_idx], the [<tr>] writes
    in order, and the warnings appended. *)
Record loop_result : Type := mkLoop {
  l_r_idx : nat;
  l_rows : list string;
  l_warnings : list warning
}.

(** [for row in it_stream: ...] inside its [try]; [r_idx] is the counter on
    entry, which is also the number of rows consumed so far. *)
Fixpoint row_loop (render_html_flag : bool) (cfg : RenderConfig) (idx : Z)
    (table_id : string) (labels : list string) (fail : option string)
    (r_idx : nat) (rows : list row) : loop_result :=
  match rows with
  | [] =>
      match fail with
      | None => mkLoop r_idx [] []
      | Some m => mkLoop r_idx [] [warn_row_iteration m idx]
      end
  | r :: rest =>
      if cancel_observed cfg idx r_idx then
        mkLoop r_idx [] [warn_canceled idx]
      else
        let r_idx' := S r_idx in
        if over_limit cfg r_idx' then
          mkLoop r_idx' [] [warn_row_limit idx r_idx']
        else
          let '(tr, ws) :=
            render_row render_html_flag idx table_id labels r_idx' r in
          let res :=
            row_loop render_html_flag cfg idx table_id labels fail r_idx' rest in
          mkLoop (l_r_idx res) (tr :: l_rows res) (ws ++ l_warnings res)
  end.

Definition table_id_of (idx : Z) : string :=
  _sanitize_id E ("Table" +:+ str_of_Z idx) (str_of_Z idx).

(** The writes before the [thead] loop. *)
Definition frag_prologue (idx : Z) (table_id title_id title_html
    display_title : string) : list string :=
  let ti := str_of_Z (idx - 1) in
  [ "<div " +:+ attr "class" "table-wrapper" +:+ " " +:+ attr "id" table_id
      +:+ ">";
    "<h3 " +:+ attr "id" title_id +:+ ">" +:+ title_html +:+ "</h3>";
    "<div " +:+ attr "class" "table-header-wrapper header-controls" +:+ ">";
    "<div " +:+ attr "class" "copy-buttons" +:+ ">";
    "<button " +:+ attr "type" "button" +:+ " " +:+ attr "class" "copy-plain-btn"
      +:+ " " +:+ attr "data-table-index" ti
      +:+ " " +:+ attr "aria-label" "Copy table as plain text"
      +:+ ">Copy Plain Table</button>";
    "<button " +:+ attr "type" "button" +:+ " " +:+ attr "class" "copy-md-btn"
      +:+ " " +:+ attr "data-table-index" ti
      +:+ " " +:+ attr "aria-label" "Copy table as markdown"
      +:+ ">Copy Markdown Table</button>";
    "</div>";
    "<div " +:+ attr "class" "header-actions" +:+ ">";
    "<button " +:+ attr "type" "button" +:+ " "
      +:+ attr "class" "toggle-table-btn"
      +:+ " " +:+ attr "data-table-index" ti
      +:+ " " +:+ attr "aria-label" "Toggle table"
      +:+ ">Collapse Table</button>";
    "</div>";
    "</div>";
    "<div " +:+ attr "class" "table-container" +:+ ">";
    (let caption_text := _safe_caption display_title in
     if nonempty caption_text
     then "<table><caption>" +:+ caption_text +:+ "</caption><thead><tr>"
     else "<table><thead><tr>") ].

(** The writes after the row loop. *)
Definition frag_epilogue (r_idx n_cols : nat) : list string :=
  [ "</tbody></table></div>";
    "<div " +:+ attr "class" "row-count" +:+ "></div>";
    "<div " +:+ attr "class" "table-summary" +:+ ">Rows: " +:+ str_of_nat r_idx
      +:+ " | Columns: " +:+ str_of_nat n_cols +:+ "</div>";
    "</div>" ].

(** Everything [_render_table_fragment_to_file] computes before it defines
    its [writer]. *)
Record frag_setup : Type := mkSetup {
  fs_table_id : string;
  fs_cols : list string;
  fs_stream : stream;
  fs_col_types : list string;
  fs_display_title : string;
  fs_title_id : string;
  fs_title_html : string;
  fs_headers_html : list string;
  fs_labels : list string
}.

Definition frag_setup_of (idx : Z) (df : table) : exn frag_setup :=
  let '(cols, sample_rows, it_stream) := _prepare_table_stream df in
  match _detect_column_types E sample_rows cols with
  | Raise m => Raise m
  | Ok col_types =>
      let '(_, display_title, title_id, title_html) :=
        _derive_titles idx cols sample_rows df in
      let safe_headers_html := map header_html cols in
      Ok {| fs_table_id := table_id_of idx;
            fs_cols := cols;
            fs_stream := it_stream;
            fs_col_types := col_types;
            fs_display_title := display_title;
            fs_title_id := title_id;
            fs_title_html := title_html;
            fs_headers_html := safe_headers_html;
            fs_labels := map header_plain_label safe_headers_html |}
  end.

Definition setup_thead (idx : Z) (st : frag_setup) : list th_cell * exn unit :=
  thead_cells idx (fs_table_id st) (fs_col_types st) 0
    (zip (fs_cols st) (fs_headers_html st)).

Definition setup_loop (render_html_flag : bool) (cfg : RenderConfig) (idx : Z)
    (st : frag_setup) : loop_result :=
  row_loop render_html_flag cfg idx (fs_table_id st) (fs_labels st)
    (s_fail (fs_stream st)) 0 (s_rows (fs_stream st)).

(** The nested [writer(f)]; its captured state is [frag_warnings]. *)
Definition frag_writer (render_html_flag : bool) (cfg : RenderConfig) (idx : Z)
    (st : frag_setup) : writer (list warning) :=
  fun frag_warnings =>
    let pro :=
      frag_prologue idx (fs_table_id st) (fs_title_id st) (fs_title_html st)
        (fs_display_title st) in
    let '(cells, res) := setup_thead idx st in
    let ths := concat (map th_writes cells) in
    match res with
    | Raise m => ((pro ++ ths, Raise m), frag_warnings)
    | Ok _ =>
        let lp := setup_loop render_html_flag cfg idx st in
        ((pro ++ ths ++ ["</tr></thead><tbody>"] ++ l_rows lp
            ++ frag_epilogue (l_r_idx lp) (length (fs_cols st)), Ok tt),
         frag_warnings ++ l_warnings lp)
    end.

Definition frag_path (tmp_frag_dir : string) (idx : Z) : string :=
  path_join tmp_frag_dir ("frag_" +:+ str_of_Z idx +:+ ".html").

(** The line count re-read from the fragment file, 0 when it cannot be
    opened. *)
Definition final_count_of (fs : gmap string string) (frag_file : string)
  : nat :=
  match fs !! frag_file with
  | Some content => count_lines content
  | None => 0%nat
  end.

(** The body of [_render_table_fragment_to_file], entered with the seven
    positional arguments bound and [render_html_flag] given by keyword or
    defaulted.  [renderer], [left_width] and [right_width] are in [E] or
    unused. *)
Definition _render_table_fragment_to_file (fs : gmap string string) (idx : Z)
    (df : table) (tmp_frag_dir : string) (cfg : RenderConfig)
    (render_html_flag : bool)
  : gmap string string * exn (Z * string * nat * list warning) :=
  match frag_setup_of idx df with
  | Raise m => (fs, Raise m)
  | Ok st =>
      let frag_file := frag_path tmp_frag_dir idx in
      let w := frag_writer render_html_flag cfg idx st in
      let '((fs', res), ws) :=
        match _atomic_stream_write E with
        | Some aw => aw fs frag_file w []
        | None => _default_write_atomic fs frag_file w []
        end in
      let frag_warnings :=
        match res with
        | Ok _ => ws
        | Raise m => ws ++ [warn_fragment_write m idx]
        end in
      (fs', Ok (idx, frag_file, final_count_of fs' frag_file, frag_warnings))
  end.

(** ** The orchestrator *)

(** [_is_valid_file]: the file exists and is not empty. *)
Definition _is_valid_file (fs : gmap string string) (p : string) : bool :=
  match fs !! p with
  | Some c => nonempty c
  | None => false
  end.

Definition _read_asset_text (fs : gmap string string)
    (assets_dir filename fallback : string) : string :=
  match fs !! path_join assets_dir filename with
  | Some c => if nonempty c then c else fallback
  | None => fallback
  end.

(** [_compute_page_title]. *)
Definition _compute_page_title (cfg : RenderConfig) (out : OutPath) : string :=
  let title :=
    match page_title cfg with
    | Some t => if nonempty t then t
                else if nonempty (o_stem out) then o_stem out
                else "Tables Viewer"
    | None => if nonempty (o_stem out) then o_stem out else "Tables Viewer"
    end in
  html_escape title.

(** [_build_head_parts]: (head_parts, page_title_esc, href_prefix). *)
Definition _build_head_parts (fs : gmap string string) (out : OutPath)
    (cfg : RenderConfig) : list string * string * string :=
  let page_title_esc := _compute_page_title cfg out in
  let assets_dir := assets_dir_of E out in
  let href_prefix := href_prefix_of E out in
  let base :=
    [ "<!DOCTYPE html>";
      "<html lang='en'>";
      "<head>";
      "<meta charset='utf-8'>";
      "<meta name='viewport' content='width=device-width,initial-scale=1'>";
      "<title>" +:+ page_title_esc +:+ "</title>";
      "<style>:root{--main-header-height:" +:+ str_of_Z 56 +:+ "px;}</style>" ] in
  let link (href : string) :=
    "<link " +:+ attr "rel" "stylesheet" +:+ " "
      +:+ attr "href" (href +:+ "?v=" +:+ str_of_Z (clock_s E)) +:+ ">" in
  let style :=
    if embed_assets cfg then
      let style_text :=
        _read_asset_text fs assets_dir "style.css" (_EMBED_STYLE E) in
      let overrides_text := _read_asset_text fs assets_dir "overrides.css" "" in
      [ "<style>" +:+ style_text +:+ nl +:+ overrides_text +:+ "</style>" ]
    else
      link (href_prefix +:+ "/style.css") ::
      (if _is_valid_file fs (path_join assets_dir "overrides.css")
       then [ link (href_prefix +:+ "/overrides.css") ] else []) in
  (base ++ style ++ [ "</head>"; "<body>" ], page_title_esc, href_prefix).

Definition header_button (id label text : string) : string :=
  "        <button " +:+ attr "id" id +:+ " " +:+ attr "type" "button" +:+ " "
    +:+ attr "aria-label" label +:+ ">" +:+ text +:+ "</button>" +:+ nl.

(** [_build_sticky_header_html]. *)
Definition _build_sticky_header_html (page_title_esc : string) : string :=
  "<div " +:+ attr "id" "tables-viewer" +:+ " " +:+ attr "role" "region"
    +:+ " " +:+ attr "aria-label" "Tables viewer" +:+ ">" +:+ nl
  +:+ "  <div " +:+ attr "id" "stickyMainHeader" +:+ ">" +:+ nl
  +:+ "    <div " +:+ attr "id" "tv-header" +:+ ">" +:+ nl
  +:+ "      <div><h1>" +:+ page_title_esc +:+ "</h1></div>" +:+ nl
  +:+ "      <div " +:+ attr "class" "tv-controls" +:+ ">" +:+ nl
  +:+ "        <input " +:+ attr "id" "searchBox" +:+ " "
    +:+ attr "class" "search-input" +:+ " " +:+ attr "type" "search" +:+ " "
    +:+ attr "placeholder" "Search" +:+ " "
    +:+ attr "aria-label" "Search tables" +:+ "/>" +:+ nl
  +:+ header_button "modeBtn" "Toggle theme" "Theme"
  +:+ header_button "toggleAllBtn" "Toggle all" "Collapse All Tables"
  +:+ header_button "copyAllPlainBtn" "Copy all tables as plain text"
        "Copy All Tables (Plain Text)"
  +:+ header_button "copyAllMdBtn" "Copy all tables as markdown"
        "Copy All Tables (Markdown)"
  +:+ header_button "resetAllBtn" "Reset all tables" "Reset All Tables"
  +:+ "      </div>" +:+ nl
  +:+ "    </div>" +:+ nl
  +:+ "    <noscript>" +:+ nl
  +:+ "      <div style='color:#b91c1c'>JavaScript is disabled. Tables will be shown statically. For large tables enable JS for virtualization.</div>"
    +:+ nl
  +:+ "    </noscript>" +:+ nl
  +:+ "  </div>" +:+ nl.

(** [_build_bottom_script_parts], called with [export_template_js] the JSON
    text of the default template and no [output_user]. *)
Definition _build_bottom_script_parts (fs : gmap string string)
    (out : OutPath) (href_prefix : string) (cfg : RenderConfig)
  : list string :=
  let assets_dir := assets_dir_of E out in
  let script_valid := _is_valid_file fs (path_join assets_dir "script.js") in
  let script :=
    if embed_assets cfg then
      [ "<script>"
          +:+ _read_asset_text fs assets_dir "script.js" (_EMBED_SCRIPT E)
          +:+ "</script>" ]
    else
      ("<script "
         +:+ attr "src" (href_prefix +:+ "/script.js" +:+ "?v="
                           +:+ str_of_Z (clock_s E))
         +:+ " defer></script>") ::
      (if script_valid then [] else [ _minimal_shim_script E ]) in
  let worker :=
    if _is_valid_file fs (path_join assets_dir "worker.js")
    then [ _build_export_worker_script E href_prefix
             (dq +:+ "{table}_{date}" +:+ dq) "" ]
    else [] in
  script ++ worker ++ [ _runtime_wiring_script E href_prefix ].

(** *** The worker pool *)

(** Binding [n_args] positional arguments to the parameters of
    [_render_table_fragment_to_file]: the signature has seven positional
    parameters and then a bare [*], so [render_html_flag] can only be given
    by keyword.  A call with more than seven positional arguments raises
    TypeError before the body runs. *)
Definition bind_positional {A : Type} (n_args : nat) (body : unit -> A)
  : exn A :=
  if (n_args <=? 7)%nat then Ok (body tt)
  else Raise ("_render_table_fragment_to_file() takes 7 positional arguments but "
              +:+ str_of_nat n_args +:+ " were given").

Definition task_result : Type := exn (Z * string * nat * list warning).

(** One task of the pool.  [ex.submit] passes the renderer eight positional
    arguments: [i, df, tmp_frag_dir, renderer, cfg, left_width, right_width,
    True]. *)
Definition run_task (fs : gmap string string) (i : Z) (df : table)
    (tmp_frag_dir : string) (cfg : RenderConfig)
  : gmap string string * task_result :=
  match bind_positional 8
          (fun _ => _render_table_fragment_to_file fs i df tmp_frag_dir cfg true)
  with
  | Ok r => r
  | Raise m => (fs, Raise m)
  end.

(** All tasks of [enumerate(tables_list, start=1)], in submission order.
    Each task touches only its own fragment file, so the tasks are run one
    after the other here. *)
Fixpoint run_pool (fs : gmap string string) (i : Z) (tables : list table)
    (tmp_frag_dir : string) (cfg : RenderConfig)
  : gmap string string * list task_result :=
  match tables with
  | [] => (fs, [])
  | df :: rest =>
      let '(fs1, r) := run_task fs i df tmp_frag_dir cfg in
      let '(fs2, rs) := run_pool fs1 (i + 1) rest tmp_frag_dir cfg in
      (fs2, r :: rs)
  end.

(** [as_completed]: the results in completion order. *)
Definition as_completed {A : Type} (order : list nat) (results : list A)
  : list A :=
  omap (fun k => results !! k) order.

Record frag_meta : Type := mkMeta {
  fm_path : string;
  fm_content : string;
  fm_title_id : string;
  fm_title_text : string;
  fm_sections : list (string * string)
}.

Record collect_state : Type := mkCollect {
  c_map : gmap Z frag_meta;
  c_total_rows : Z;
  c_warnings : list warning;
  c_finished : nat
}.

Definition warn_table_render (msg : string) : warning :=
  mkWarning Error ("table render failed: " +:+ msg) (Some None) None None.

(** The metadata read back from a fragment's text. *)
Definition extract_meta (i : Z) (frag_path content : string) : frag_meta :=
  let found := if nonempty content then search_title E content else None in
  let title_id :=
    match found with
    | Some (tid, _) => if nonempty tid then tid else "Table" +:+ str_of_Z i
    | None => "Table" +:+ str_of_Z i
    end in
  let title_text :=
    match found with
    | Some (_, raw) =>
        let t := html_unescape E (strip (strip_tags raw)) in
        if nonempty t then t else "Table " +:+ str_of_Z i
    | None => "Table " +:+ str_of_Z i
    end in
  let sections :=
    if nonempty content then
      map (fun '(sid, sraw) =>
             (sid, html_unescape E (strip (strip_tags sraw))))
          (find_sections E content)
    else [] in
  mkMeta frag_path content title_id title_text sections.

(** The body of [for fut in as_completed(futures_only)]. *)
Definition collect_one (fs : gmap string string) (st : collect_state)
    (r : task_result) : collect_state :=
  match r with
  | Ok (i, frag_path, rcount, frag_warnings) =>
      let content := default "" (fs !! frag_path) in
      mkCollect (<[i := extract_meta i frag_path content]> (c_map st))
        (c_total_rows st + Z.of_nat rcount)
        (c_warnings st ++ frag_warnings)
        (S (c_finished st))
  | Raise m =>
      mkCollect (c_map st) (c_total_rows st)
        (c_warnings st ++ [warn_table_render m]) (c_finished st)
  end.

Definition collect (fs : gmap string string) (warnings : list warning)
    (results : list task_result) : collect_state :=
  foldl (collect_one fs) (mkCollect ∅ 0 warnings 0) results.


(** *** Fallback decision and assembly *)

Definition _frag_contains_rows (content : string) : bool :=
  nonempty content && search_tbody_tr content.

Definition any_with_rows (fm : gmap Z frag_meta) : bool :=
  existsb (fun kv => _frag_contains_rows (fm_content kv.2)) (map_to_list fm).

Definition warn_no_fragments : warning :=
  mkWarning Warn "no fragments produced; falling back to inline rendering"
    None None None.

Definition warn_no_rows : warning :=
  mkWarning Warn "fragments contain no rows; falling back to inline rendering"
    None None None.

(** [need_fallback] and the warnings after the decision. *)
Definition fallback_decision (fm : gmap Z frag_meta) (warnings : list warning)
  : bool * list warning :=
  if decide (fm = ∅) then (true, warnings ++ [warn_no_fragments])
  else if any_with_rows fm then (false, warnings)
  else (true, warnings ++ [warn_no_rows]).

Definition toc_item (title_id title_text : string) : string :=
  "<li " +:+ attr "class" "toc-item" +:+ "><a " +:+ attr "class" "toc-link"
    +:+ " " +:+ attr "href" ("#" +:+ html_escape title_id) +:+ ">"
    +:+ html_escape title_text +:+ "</a></li>".

(** [sorted(fragments_map.keys())]. *)
Definition sorted_keys (fm : gmap Z frag_meta) : list Z :=
  merge_sort Z.le (map fst (map_to_list fm)).

Definition failed_piece (idx : Z) : string :=
  "<h3 id='Table" +:+ str_of_Z idx +:+ "'>Table " +:+ str_of_Z idx
    +:+ "</h3>" +:+ nl +:+ "<p>(failed to render table)</p>".

(** One iteration of the inline loop: the piece, its TOC entry and the
    warnings appended. *)
Definition inline_one (idx : Z) (df : table)
  : string * string * list warning :=
  let '(piece, ws) :=
    match convert_render_table E with
    | Some crt =>
        match crt df idx with
        | Ok p => (p, [])
        | Raise m =>
            (failed_piece idx,
             [ mkWarning Warn ("inline render failed for table "
                                 +:+ str_of_Z idx +:+ ": " +:+ m)
                 None None None ])
        end
    | None =>
        match to_html E df with
        | Ok h =>
            ("<h3 id='Table" +:+ str_of_Z idx +:+ "'>Table " +:+ str_of_Z idx
               +:+ "</h3>" +:+ nl +:+ h, [])
        | Raise _ => (failed_piece idx, [])
        end
    end in
  let '(title_id, title_text) :=
    match search_title E piece with
    | Some (tid, raw) => (tid, html_unescape E (strip (strip_tags raw)))
    | None => ("Table" +:+ str_of_Z idx, "Table " +:+ str_of_Z idx)
    end in
  (piece, toc_item title_id title_text, ws).

Fixpoint inline_all (idx : Z) (tables : list table)
  : list string * list string * list warning :=
  match tables with
  | [] => ([], [], [])
  | df :: rest =>
      let '(piece, item, ws) := inline_one idx df in
      let '(pieces, items, ws') := inline_all (idx + 1) rest in
      (piece :: pieces, item :: items, ws ++ ws')
  end.

(** What the final [writer] puts between the table of contents and the
    bottom scripts. *)
Definition body_chunks (fs : gmap string string) (need_fallback : bool)
    (frag_paths_ordered inline_parts : list string) : list string :=
  if need_fallback then
    concat (map (fun inline_html => [inline_html; nl]) inline_parts)
  else
    omap (fun fp => fs !! fp) frag_paths_ordered.

Definition toc_html (toc_items : list string) : string :=
  "<div " +:+ attr "id" "tocBar" +:+ " " +:+ attr "role" "navigation" +:+ " "
    +:+ attr "aria-label" "Table of contents" +:+ "><ul>"
    +:+ join nl toc_items +:+ "</ul></div>".

(** All writes of the final [writer], in order. *)
Definition final_chunks (head_parts : list string) (sticky_html toc : string)
    (body bottom_parts : list string) : list string :=
  concat (map (fun part => [part; nl]) head_parts)
    ++ [sticky_html; nl; toc; nl]
    ++ body
    ++ concat (map (fun part => [part; nl]) bottom_parts)
    ++ [ "</div></body></html>" +:+ nl ].

Definition warn_write_failed (msg : string) : warning :=
  mkWarning Error ("write_failed: " +:+ msg) None None None.

Definition warn_gzip_failed (msg : string) : warning :=
  mkWarning Warn ("gzip_failed: " +:+ msg) None None None.

(** The fragment directory: a fresh [.frags_<ms>] under the output directory,
    or the output directory itself when it cannot be created. *)
Definition tmp_frag_dir_of (out : OutPath) : string :=
  let d := path_join (o_dir out) (".frags_" +:+ str_of_Z (clock_ms E)) in
  if mkdir_fails E d then o_dir out else d.

(** [shutil.rmtree(tmp_frag_dir)] under its guard. *)
Definition cleanup (fs : gmap string string) (out : OutPath)
    (tmp_frag_dir : string) : gmap string string :=
  if String.eqb tmp_frag_dir (o_dir out) then fs
  else if rmtree_fails E tmp_frag_dir then fs
  else filter (fun kv => String.prefix (tmp_frag_dir +:+ "/") kv.1 = false) fs.

(** The state of [render_html] when the pool has finished and the fallback
    decision is taken. *)
Record assembly : Type := mkAssembly {
  a_fs : gmap string string;
  a_map : gmap Z frag_meta;
  a_total_rows : Z;
  a_need_fallback : bool;
  a_warnings : list warning;
  a_chunks : list string
}.

(** From the creation of the fragment directory to the final [writer]. *)
Definition assemble (fs : gmap string string) (warnings : list warning)
    (tables : list table) (out : OutPath) (cfg : RenderConfig) : assembly :=
  let tmp_frag_dir := tmp_frag_dir_of out in
  let '(fs1, results) := run_pool fs 1 tables tmp_frag_dir cfg in
  let st :=
    collect fs1 warnings
      (as_completed (completion_order E (length tables)) results) in
  let '(need_fallback, warnings1) :=
    fallback_decision (c_map st) (c_warnings st) in
  let '(head_parts, page_title_esc, href_prefix) :=
    _build_head_parts fs1 out cfg in
  let sticky_html := _build_sticky_header_html page_title_esc in
  let fragment_toc :=
    omap (fun idx =>
            (fun meta => (fm_path meta,
                          toc_item (fm_title_id meta) (fm_title_text meta)))
              <$> c_map st !! idx)
         (sorted_keys (c_map st)) in
  let '(inline_parts, inline_toc, inline_ws) := inline_all 1 tables in
  let toc_items := if need_fallback then inline_toc else map snd fragment_toc in
  let warnings2 := if need_fallback then warnings1 ++ inline_ws else warnings1 in
  let bottom_parts := _build_bottom_script_parts fs1 out href_prefix cfg in
  mkAssembly fs1 (c_map st) (c_total_rows st) need_fallback warnings2
    (final_chunks head_parts sticky_html (toc_html toc_items)
       (body_chunks fs1 need_fallback (map fst fragment_toc) inline_parts)
       bottom_parts).

(** [render_html] from the creation of the fragment directory to its
    [return]: the path taken when the split branch is not. *)
Definition render_unsplit (fs : gmap string string) (warnings : list warning)
    (tables : list table) (out : OutPath) (cfg : RenderConfig)
    (return_html : bool) : gmap string string * RenderResult :=
  let a := assemble fs warnings tables out cfg in
  let out_path := out_str out in
  let w : writer unit := fun _ => ((a_chunks a, Ok tt), tt) in
  let '((fs2, res), _) :=
    match _atomic_write E with
    | Some aw => aw (a_fs a) out_path w tt
    | None => _default_write_atomic (a_fs a) out_path w tt
    end in
  match res with
  | Raise m =>
      (fs2, mkResult (a_warnings a ++ [warn_write_failed m])
              None None None None None None)
  | Ok _ =>
      let '(fs3, warnings3) :=
        if gzip_out cfg then
          match gzip_result E fs2 out_path with
          | Ok gz => (<[out_path +:+ ".gz" := gz]> fs2, a_warnings a)
          | Raise m => (fs2, a_warnings a ++ [warn_gzip_failed m])
          end
        else (fs2, a_warnings a) in
      let html := if return_html then fs3 !! out_path else None in
      (cleanup fs3 out (tmp_frag_dir_of out),
       mkResult warnings3 (Some (length tables)) (Some (a_total_rows a))
         None (Some out_path) html (Some (elapsed_ms E)))
  end.

(** *** The split path *)

(** The row count taken by iterating a table once; 0 when iteration raises. *)
Definition count_rows (df : table) : Z :=
  match s_fail (t_rows df) with
  | None => Z.of_nat (length (s_rows (t_rows df)))
  | Some _ => 0
  end.

Definition sum_Z (l : list Z) : Z := foldr Z.add 0 l.

Definition total_rows_of (tables : list table) : Z :=
  sum_Z (map count_rows tables).

(** [cfg.split_threshold] is set and [total_rows > cfg.split_threshold]. *)
Definition split_taken (cfg : RenderConfig) (tables : list table) : bool :=
  negb (split_threshold cfg =? 0)
  && (split_threshold cfg <? total_rows_of tables).

(** [out_dir / f"{out_path.stem}_part{part_no}{out_path.suffix}"]. *)
Definition part_path (out : OutPath) (part_no : Z) : OutPath :=
  mkOut (o_dir out) (o_stem out +:+ "_part" +:+ str_of_Z part_no)
    (o_suffix out).

Definition is_nil {A : Type} (l : list A) : bool :=
  match l with [] => true | _ => false end.

(** The grouping loop with the rendering left out: the groups closed so
    far, and the group being filled. *)
Fixpoint group_loop (T : Z) (items : list (table * Z))
    (closed : list (list table)) (cur_tables : list table) (cur_rows : Z)
  : list (list table) * list table :=
  match items with
  | [] => (closed, cur_tables)
  | (df, rc) :: rest =>
      if (T <? cur_rows + rc) && negb (is_nil cur_tables)
      then group_loop T rest (closed ++ [cur_tables]) [df] rc
      else group_loop T rest closed (cur_tables ++ [df]) (cur_rows + rc)
  end.

(** The table groups the split path renders, in order. *)
Definition split_groups (T : Z) (tables : list table) : list (list table) :=
  let '(closed, cur_tables) :=
    group_loop T (zip tables (map count_rows tables)) [] [] 0 in
  if is_nil cur_tables then closed else closed ++ [cur_tables].

Record split_state : Type := mkSplit {
  sp_fs : gmap string string;
  sp_parts : list OutPath;
  sp_part_no : Z;
  sp_cur_tables : list table;
  sp_cur_rows : Z
}.

Definition renderer_call : Type :=
  gmap string string -> list table -> OutPath ->
  option (gmap string string * RenderResult).

(** Render the current group as part [part_no] and record it.  [None] when
    the nested call does not return. *)
Definition close_part (rec : renderer_call) (out : OutPath)
    (st : split_state) : option split_state :=
  let part := part_path out (sp_part_no st) in
  match rec (sp_fs st) (sp_cur_tables st) part with
  | None => None
  | Some (fs', _) =>
      Some (mkSplit fs' (sp_parts st ++ [part]) (sp_part_no st + 1) [] 0)
  end.

(** [for df, rc in zip(tables_list, row_counts)]. *)
Fixpoint split_loop (rec : renderer_call) (T : Z) (out : OutPath)
    (items : list (table * Z)) (st : split_state) : option split_state :=
  match items with
  | [] => Some st
  | (df, rc) :: rest =>
      let closed :=
        if (T <? sp_cur_rows st + rc) && negb (is_nil (sp_cur_tables st))
        then close_part rec out st
        else Some st in
      match closed with
      | None => None
      | Some s =>
          split_loop rec T out rest
            (mkSplit (sp_fs s) (sp_parts s) (sp_part_no s)
               (sp_cur_tables s ++ [df]) (sp_cur_rows s + rc))
      end
  end.

Definition index_link (name : string) : string :=
  "<li><a " +:+ attr "href" name +:+ ">" +:+ name +:+ "</a></li>".

(** The index document; [names] are the [Path(p).name] of the parts. *)
Definition index_html (names : list string) : string :=
  "<!DOCTYPE html><html><head><meta charset='utf-8'><title>Index</title></head><body><h1>Parts</h1><ul>"
    +:+ concat_str (map index_link names) +:+ "</ul></body></html>".

Definition index_path (out : OutPath) : string :=
  path_join (o_dir out) (o_stem out +:+ "_index.html").

(** The index is written atomically, else directly, else not at all. *)
Definition write_index (fs : gmap string string) (out : OutPath)
    (html : string) : gmap string string :=
  let p := index_path out in
  match _default_write_atomic fs p (fun _ : unit => (([html], Ok tt), tt)) tt with
  | ((fs', Ok _), _) => fs'
  | ((fs', Raise _), _) =>
      match open_error E p with
      | Some _ => fs'
      | None => <[p := html]> fs'
      end
  end.

(** [render_html(all_tables, output_html, markdown_to_html, config=cfg,
    return_html=...)] with the other keyword arguments at their defaults.
    [fuel] bounds the depth of the nested calls of the split path; [None]
    means the bound was reached, which is how a run that exhausts Python's
    recursion limit appears here. *)
Fixpoint render_html (fuel : nat) (fs : gmap string string)
    (tables : list table) (out : OutPath) (cfg : RenderConfig)
    (return_html : bool) : option (gmap string string * RenderResult) :=
  match fuel with
  | O => None
  | S fuel' =>
      let '(fs1, warnings) := provision_assets E fs out in
      if split_taken cfg tables then
        let rec : renderer_call :=
          fun fs' ts o => render_html fuel' fs' ts o cfg false in
        match split_loop rec (split_threshold cfg) out
                (zip tables (map count_rows tables))
                (mkSplit fs1 [] 1 [] 0) with
        | None => None
        | Some st =>
            let last :=
              if is_nil (sp_cur_tables st) then Some st
              else close_part rec out st in
            match last with
            | None => None
            | Some st' =>
                Some (write_index (sp_fs st') out
                        (index_html (map out_name (sp_parts st'))),
                      mkResult warnings (Some (length tables))
                        (Some (total_rows_of tables))
                        (Some (map out_str (sp_parts st'))) None None
                        (Some (elapsed_ms E)))
            end
        end
      else Some (render_unsplit fs1 warnings tables out cfg return_html)
  end.

(** ** Notions used to state the properties *)

(** The TypeError text of a pool task. *)
Definition arity_error : string :=
  "_render_table_fragment_to_file() takes 7 positional arguments but 8 were given".

(** The [<tr>] texts of [rows] when the row counter stands at [r0] before
    the first of them, and the warnings their cells record. *)
Fixpoint rendered_rows (render_html_flag : bool) (idx : Z) (table_id : string)
    (labels : list string) (r0 : nat) (rows : list row) : list string :=
  match rows with
  | [] => []
  | r :: rest =>
      (render_row render_html_flag idx table_id labels (S r0) r).1
      :: rendered_rows render_html_flag idx table_id labels (S r0) rest
  end.

Fixpoint rendered_warnings (render_html_flag : bool) (idx : Z)
    (table_id : string) (labels : list string) (r0 : nat) (rows : list row)
  : list warning :=
  match rows with
  | [] => []
  | r :: rest =>
      (render_row render_html_flag idx table_id labels (S r0) r).2
      ++ rendered_warnings render_html_flag idx table_id labels (S r0) rest
  end.

Definition is_limit_warning (w : warning) : bool :=
  String.eqb (w_msg w) "table_row_limit exceeded".

Definition is_cancel_warning (w : warning) : bool :=
  String.eqb (w_msg w) "canceled".

(** The text of a fragment file whose header cells are [cells], whose data
    rows are [rows] and whose row counter ended at [r_idx]. *)
Definition fragment_text (idx : Z) (st : frag_setup) (cells : list th_cell)
    (rows : list string) (r_idx : nat) : string :=
  concat_str
    (frag_prologue idx (fs_table_id st) (fs_title_id st) (fs_title_html st)
       (fs_display_title st)
     ++ concat (map th_writes cells)
     ++ ["</tr></thead><tbody>"] ++ rows
     ++ frag_epilogue r_idx (length (fs_cols st))).






(** No markdown or conversion call raises. *)
Definition no_cell_failures : Prop :=
  forall s, (exists h, render E s = Ok h) /\ (exists c, cell_source s = Ok c).

(** The fragment file of table [idx] can be opened and promoted, through
    the built-in atomic writer. *)
Definition fragment_write_ok (tmp_frag_dir : string) (idx : Z) : Prop :=
  _atomic_stream_write E = None
  /\ open_error E (frag_path tmp_frag_dir idx +:+ ".tmp") = None
  /\ replace_error E (frag_path tmp_frag_dir idx +:+ ".tmp")
       (frag_path tmp_frag_dir idx) = None.


(** [zip(tables_list, row_counts)]. *)
Definition items_of (tables : list table) : list (table * Z) :=
  zip tables (map count_rows tables).




End Pipeline.
End Core.

(** ** Concrete environments *)

Module Envs.
Import Text Core.

(** The in-source [_take_and_stream]: an empty sample and an empty
    iterator. *)
Definition src_take_and_stream (s : stream) (n : nat)
  : exn (list row * stream) :=
  Ok ([], mkStream [] None).

(** Modelled from the spec: [_take_and_stream] of the module [.convert],
    which is not in the source tree.  It materialises up to [n] rows as the
    sample and returns a sequence that yields every row of the table, the
    sampled ones included, in the original order; pulling the sample
    raises when the iterator raises before [n] rows were read. *)
Definition spec_take_and_stream (s : stream) (n : nat)
  : exn (list row * stream) :=
  match s_fail s with
  | Some m =>
      if (length (s_rows s) <? n)%nat then Raise m
      else Ok (take n (s_rows s), s)
  | None => Ok (take n (s_rows s), s)
  end.

(** The environment of the source's [except] branches, with an identity
    markdown function, no failing system call, a clock standing at 0 and
    tasks completing in submission order.  The row adapter, the [open]
    failures and the pandas renderer are left to the caller. *)
Definition env_with
    (adapter : stream -> nat -> exn (list row * stream))
    (open_err : string -> option string)
    (pandas_to_html : table -> exn string) : Env :=
  {| render := Ok;
     _sanitize_html_whitelist := Ok;
     _sanitize_id := src_sanitize_id;
     convert_bullets_to_ul := Ok;
     _normalize_list_markers := Ok;
     _unescape_brackets_outside_code := Ok;
     _detect_column_types := fun _ cols => Ok (replicate (length cols) "text");
     _take_and_stream := adapter;
     convert_render_table := None;
     to_html := pandas_to_html;
     _atomic_stream_write := None;
     _atomic_write := None;
     html_unescape := fun s => s;
     search_title := fun _ => None;
     find_sections := fun _ => [];
     provision_assets := fun fs _ => (fs, []);
     assets_dir_of := fun o => path_join (o_dir o) "assets";
     href_prefix_of := fun _ => "assets";
     _EMBED_STYLE := "";
     _EMBED_SCRIPT := "";
     _minimal_shim_script := "<script>/* shim */</script>";
     _runtime_wiring_script := fun _ => "<script>/* wiring */</script>";
     _build_export_worker_script := fun _ _ _ => "<script>/* export */</script>";
     open_error := open_err;
     replace_error := fun _ _ => None;
     mkdir_fails := fun _ => false;
     rmtree_fails := fun _ => false;
     gzip_result := fun _ p => Raise ("cannot read " +:+ p);
     clock_s := 0;
     clock_ms := 0;
     elapsed_ms := 0;
     completion_order := fun n => seq 0 n |}.

Definition no_to_html (df : table) : exn string := Raise "no to_html".

Definition src_env : Env :=
  env_with src_take_and_stream (fun _ => None) no_to_html.

Definition spec_env : Env :=
  env_with spec_take_and_stream (fun _ => None) no_to_html.

Definition default_config : RenderConfig :=
  mkConfig 0 4 0 None false false None.

Definition cell (s : string) : scalar := VStr s.

(** A table of one column "c" whose rows hold the given texts. *)
Definition one_column (texts : list string) : table :=
  mkTable None None ["c"] (mkStream (map (fun s => [cell s]) texts) None).

Definition out_html : OutPath := mkOut "out" "report" ".html".

Definition abc : table := one_column ["a"; "b"; "c"].

(** A row limit of 2. *)
Definition limit_two : RenderConfig :=
  mkConfig 0 4 2 None false false None.

(** The flag is seen set from the second row boundary on. *)
Definition cancel_after_two : RenderConfig :=
  mkConfig 0 4 0 (Some (fun _ consumed => (2 <=? consumed)%nat))
    false false None.

Definition frag_dir : string := "out/.frags_0".


Definition five_rows : table := one_column ["1"; "2"; "3"; "4"; "5"].


(** Opening the temporary file of the final document is refused. *)
Definition denied_env : Env :=
  env_with spec_take_and_stream
    (fun p => if String.eqb p "out/report.html.tmp"
              then Some "Permission denied" else None)
    no_to_html.

(** The setup and the header cells of [abc] rendered as table 1. *)
Definition abc_setup : frag_setup :=
  Eval vm_compute in
    match frag_setup_of spec_env 1 abc with
    | Ok st => st
    | Raise _ => mkSetup "" [] (mkStream [] None) [] "" "" "" [] []
    end.

Definition abc_cells : list th_cell :=
  Eval vm_compute in (setup_thead 1 abc_setup).1.

Definition abc_rows (flag : bool) (n : nat) : list string :=
  rendered_rows spec_env flag 1 (fs_table_id abc_setup) (fs_labels abc_setup) 0
    (take n (s_rows (fs_stream abc_setup))).

End Envs.

(** ** Further helpers of the module, and notions for their properties *)

Module Helpers.
Import Text Core Envs.

(** A character that cannot end or open an attribute value or a tag. *)
Definition markup_safe (c : ascii) : bool :=
  negb (eqc c "034") && negb (eqc c "'") && negb (eqc c "<") && negb (eqc c ">").

(** [s.rstrip(chars)] by recursion on the text: a character is dropped when
    everything after it was dropped and it is one of the stripped ones. *)
Fixpoint rstrip_rec (p : ascii -> bool) (s : string) : string :=
  match s with
  | EmptyString => EmptyString
  | String c r =>
      match rstrip_rec p r with
      | EmptyString => if p c then EmptyString else String c EmptyString
      | r' => String c r'
      end
  end.

(** No two dashes in a row; [prev] tells that a dash came just before. *)
Fixpoint single_dashes (s : string) (prev : bool) : bool :=
  match s with
  | EmptyString => true
  | String c r =>
      if eqc c "-" then negb prev && single_dashes r true
      else single_dashes r false
  end.

(** The characters of a sanitized id. *)
Definition id_out_ok (c : ascii) : bool :=
  is_lower c || is_digit c || eqc c "-" || eqc c "_".

(** The text [_sanitize_id] keeps when it is not empty. *)
Definition sanitized_core (x : string) : string :=
  strip_dash (collapse_dashes (sub_bad_runs (lower (strip x)) false) false).

(** [_normalize_id_token]: the characters it leaves alone. *)
Definition token_char_ok (c : ascii) : bool :=
  is_lower c || is_upper c || is_digit c
  || eqc c "_" || eqc c "-" || eqc c ":" || eqc c ".".

(** [re.sub(r'[^A-Za-z0-9_\-:.]', '-', t).strip('-')]. *)
Definition token_core (token : string) : string :=
  strip_dash (map_chars (fun c => if token_char_ok c then c else "-"%char) token).

(** [_normalize_id_token(token, fallback_index)]; [fallback] is
    [str(fallback_index)]. *)
Definition _normalize_id_token (token fallback : string) : string :=
  let t := token_core token in
  if nonempty t then t else "id-" +:+ fallback.

(** [p in s] for texts. *)
Fixpoint contains (p s : string) : bool :=
  String.prefix p s
  || match s with
     | EmptyString => false
     | String _ r => contains p r
     end.

(** [_looks_like_table_fragment]. *)
Definition _looks_like_table_fragment (content : string) : bool :=
  nonempty content
  && (contains "<table" (lower content) && contains "<tbody" (lower content)).

Section WithEnv.
Variable E : Env.



(** [render_table(df, idx, markdown_to_html, escape_cells=...)];
    [to_html_raw] is [df.to_html(index=False, border=0, escape=False)]. *)
Definition render_table (to_html_raw : table -> exn string) (df : table)
    (idx : Z) (escape_cells : bool) : string :=
  let pandas_piece :=
    match (if escape_cells then to_html E df else to_html_raw df) with
    | Ok h =>
        "<h3 id='Table" +:+ str_of_Z idx +:+ "'>Table " +:+ str_of_Z idx
          +:+ "</h3>" +:+ nl +:+ h
    | Raise _ => failed_piece idx
    end in
  match convert_render_table E with
  | Some crt =>
      match crt df idx with
      | Ok p => p
      | Raise _ => pandas_piece
      end
  | None => pandas_piece
  end.

(** The index of a task result, when the task returned. *)
Definition result_index (r : task_result) : option Z :=
  match r with
  | Ok (i, _, _, _) => Some i
  | Raise _ => None
  end.

(** [rmtree] of the fragment directory was attempted and did not fail. *)
Definition cleanup_ran (out : OutPath) (tmp_frag_dir : string) : Prop :=
  String.eqb tmp_frag_dir (o_dir out) = false
  /\ rmtree_fails E tmp_frag_dir = false.



End WithEnv.

(** Two collected states that differ at most in the order of their
    warnings. *)
Definition same_collected (a b : collect_state) : Prop :=
  c_map a = c_map b /\ c_total_rows a = c_total_rows b
  /\ c_finished a = c_finished b /\ c_warnings a ≡ₚ c_warnings b.

(** [spec_env] with a column-type detector that answers [types] for every
    table. *)
Definition env_with_types (types : list string) : Env :=
  {| render := render spec_env;
     _sanitize_html_whitelist := _sanitize_html_whitelist spec_env;
     _sanitize_id := _sanitize_id spec_env;
     convert_bullets_to_ul := convert_bullets_to_ul spec_env;
     _normalize_list_markers := _normalize_list_markers spec_env;
     _unescape_brackets_outside_code := _unescape_brackets_outside_code spec_env;
     _detect_column_types := fun _ _ => Ok types;
     _take_and_stream := _take_and_stream spec_env;
     convert_render_table := convert_render_table spec_env;
     to_html := to_html spec_env;
     _atomic_stream_write := _atomic_stream_write spec_env;
     _atomic_write := _atomic_write spec_env;
     html_unescape := html_unescape spec_env;
     search_title := search_title spec_env;
     find_sections := find_sections spec_env;
     provision_assets := provision_assets spec_env;
     assets_dir_of := assets_dir_of spec_env;
     href_prefix_of := href_prefix_of spec_env;
     _EMBED_STYLE := _EMBED_STYLE spec_env;
     _EMBED_SCRIPT := _EMBED_SCRIPT spec_env;
     _minimal_shim_script := _minimal_shim_script spec_env;
     _runtime_wiring_script := _runtime_wiring_script spec_env;
     _build_export_worker_script := _build_export_worker_script spec_env;
     open_error := open_error spec_env;
     replace_error := replace_error spec_env;
     mkdir_fails := mkdir_fails spec_env;
     rmtree_fails := rmtree_fails spec_env;
     gzip_result := gzip_result spec_env;
     clock_s := clock_s spec_env;
     clock_ms := clock_ms spec_env;
     elapsed_ms := elapsed_ms spec_env;
     completion_order := completion_order spec_env |}.

(** A table with no title, no name, no column and no row. *)
Definition bare_table : table := mkTable None None [] (mkStream [] None).

(** A stream that raises after two rows. *)
Definition failing_table : table :=
  mkTable None None ["c"]
    (mkStream [[cell "a"]; [cell "b"]] (Some "connection lost")).

Definition no_setup : frag_setup :=
  mkSetup "" [] (mkStream [] None) [] "" "" "" [] [].

(** The setup and the header cells of [failing_table] rendered as table 1. *)
Definition failing_setup : frag_setup :=
  Eval vm_compute in
    match frag_setup_of spec_env 1 failing_table with
    | Ok st => st
    | Raise _ => no_setup
    end.

Definition failing_cells : list th_cell :=
  Eval vm_compute in (setup_thead 1 failing_setup).1.

(** The setup of [abc] when the detector answers no type at all. *)
Definition untyped_setup : frag_setup :=
  Eval vm_compute in
    match frag_setup_of (env_with_types []) 1 abc with
    | Ok st => st
    | Raise _ => no_setup
    end.

(** The setup of [abc] with the in-source row adapter. *)
Definition stub_setup : frag_setup :=
  Eval vm_compute in
    match frag_setup_of src_env 1 abc with
    | Ok st => st
    | Raise _ => no_setup
    end.

(** A split threshold below zero. *)
Definition negative_threshold : RenderConfig :=
  mkConfig (-1) 4 0 None false false None.

(** The temporary file of the index document cannot be opened. *)
Definition index_tmp_denied_env : Env :=
  env_with spec_take_and_stream
    (fun p => if String.eqb p "out/report_index.html.tmp"
              then Some "Permission denied" else None)
    no_to_html.

(** Three task results, two of them fragments. *)
Definition three_results : list task_result :=
  [ Ok (1, "out/.frags_0/frag_1.html", 1%nat, [warn_canceled 1]);
    Raise "boom";
    Ok (2, "out/.frags_0/frag_2.html", 1%nat, []) ].

End Helpers.

(** ** The worker pool never produces a fragment *)

Module PoolFacts.
Import Text Core.

Section Pool.
Variable E : Env.

Lemma run_task_raises fs i df dir cfg :
  run_task E fs i df dir cfg = (fs, Raise arity_error).
Proof. reflexivity. Qed.

Lemma run_pool_raises tables : forall fs i dir cfg,
  run_pool E fs i tables dir cfg
  = (fs, replicate (length tables) (Raise arity_error)).
Proof.
  induction tables as [|df rest IH]; intros fs i dir cfg; [reflexivity|].
  cbn [run_pool]. rewrite run_task_raises, IH. reflexivity.
Qed.

Lemma as_completed_replicate {A : Type} (order : list nat) n (x : A) :
  Forall (fun y => y = x) (as_completed order (replicate n x)).
Proof.
  unfold as_completed. induction order as [|k order IH]; cbn; [constructor|].
  destruct (replicate n x !! k) as [y|] eqn:Hk; cbn; [|exact IH].
  constructor; [|exact IH].
  apply lookup_replicate in Hk. tauto.
Qed.

Lemma collect_all_raise fs (results : list task_result) m :
  Forall (fun r => r = Raise m) results ->
  forall st,
    let st' := foldl (collect_one E fs) st results in
    c_map st' = c_map st /\ c_total_rows st' = c_total_rows st
    /\ c_finished st' = c_finished st
    /\ c_warnings st'
       = c_warnings st ++ replicate (length results) (warn_table_render m).
Proof.
  induction 1 as [|r results Hr _ IH]; intros st; cbn.
  - rewrite app_nil_r. auto.
  - subst r. cbn. destruct (IH (collect_one E fs st (Raise m))) as (H1 & H2 & H3 & H4).
    cbn in *. rewrite H1, H2, H3, H4, <- app_assoc. auto.
Qed.

(** Whatever the tables, the collected state of [assemble] is empty. *)
Lemma assemble_no_fragment fs ws tables out cfg :
  let a := assemble E fs ws tables out cfg in
  a_map a = ∅ /\ a_total_rows a = 0 /\ a_need_fallback a = true /\ a_fs a = fs.
Proof.
  unfold assemble. rewrite run_pool_raises.
  set (rs := as_completed _ _).
  assert (Hrs : Forall (fun r : task_result => r = Raise arity_error) rs)
    by apply as_completed_replicate.
  destruct (collect_all_raise fs rs arity_error Hrs (mkCollect ∅ 0 ws 0))
    as (Hm & Ht & _ & Hw).
  cbn in Hm, Ht, Hw. unfold collect. cbv zeta.
  unfold fallback_decision. rewrite Hm, Ht.
  destruct (decide (∅ = ∅)) as [_|Hne]; [|congruence].
  destruct (_build_head_parts E fs out cfg) as [[hp pt] hr].
  destruct (inline_all E 1 tables) as [[ip it] iw].
  cbn. auto.
Qed.

End Pool.
End PoolFacts.

(** ** The row loop *)

Module RowLoop.
Import Text Core.

Section Loop.
Variable E : Env.
Variables (flag : bool) (cfg : RenderConfig) (idx : Z) (tid : string)
  (labels : list string) (fail : option string).

Local Abbreviation loop := (row_loop E flag cfg idx tid labels fail).
Local Abbreviation rrows := (rendered_rows E flag idx tid labels).
Local Abbreviation rwarns := (rendered_warnings E flag idx tid labels).

Lemma rendered_rows_length r0 rows : length (rrows r0 rows) = length rows.
Proof.
  revert r0. induction rows as [|r rows IH]; intros r0; cbn; [|rewrite IH]; reflexivity.
Qed.

(** A prefix of rows met with the flag clear and the limit not reached is
    rendered in full, and the loop goes on from the advanced counter. *)
Lemma row_loop_prefix pre : forall r0 rest,
  (forall j, (r0 <= j < r0 + length pre)%nat ->
             cancel_observed cfg idx j = false) ->
  (forall j, (r0 < j <= r0 + length pre)%nat -> over_limit cfg j = false) ->
  loop r0 (pre ++ rest)
  = let res := loop (r0 + length pre)%nat rest in
    mkLoop (l_r_idx res) (rrows r0 pre ++ l_rows res)
      (rwarns r0 pre ++ l_warnings res).
Proof.
  induction pre as [|r pre IH]; intros r0 rest Hc Hl.
  - cbn. rewrite Nat.add_0_r. destruct (loop r0 rest); reflexivity.
  - cbn [app row_loop length].
    rewrite (Hc r0) by (cbn; lia). rewrite (Hl (S r0)) by (cbn; lia).
    destruct (render_row E flag idx tid labels (S r0) r) as [tr ws] eqn:Hr.
    rewrite IH by (intros; first [apply Hc | apply Hl]; cbn; lia).
    cbn [rendered_rows rendered_warnings]. rewrite Hr.
    replace (S r0 + length pre)%nat with (r0 + S (length pre))%nat by lia.
    cbn. rewrite <- app_assoc. reflexivity.
Qed.

Lemma row_loop_cancel r0 r rest :
  cancel_observed cfg idx r0 = true ->
  loop r0 (r :: rest) = mkLoop r0 [] [warn_canceled idx].
Proof. intros H. cbn. rewrite H. reflexivity. Qed.

Lemma row_loop_limit r0 r rest :
  cancel_observed cfg idx r0 = false ->
  over_limit cfg (S r0) = true ->
  loop r0 (r :: rest) = mkLoop (S r0) [] [warn_row_limit idx (S r0)].
Proof. intros Hc Hl. cbn. rewrite Hc, Hl. reflexivity. Qed.

(** The warnings of the cells are neither limit nor cancellation notes. *)
Lemma render_cell_warnings fc r_idx col_i v :
  Forall (fun w => is_limit_warning w = false /\ is_cancel_warning w = false)
    (render_cell E flag idx tid labels r_idx fc col_i v).2.
Proof.
  unfold render_cell.
  destruct (cell_source E _) as [src|m].
  - destruct flag.
    + destruct (render E src); cbn; repeat constructor.
    + cbn; constructor.
  - cbn. repeat constructor.
Qed.

Lemma render_cells_warnings fc r_idx vals : forall col_i,
  Forall (fun w => is_limit_warning w = false /\ is_cancel_warning w = false)
    (render_cells E flag idx tid labels r_idx fc col_i vals).2.
Proof.
  induction vals as [|v vals IH]; intros col_i; cbn; [constructor|].
  pose proof (render_cell_warnings fc r_idx col_i v) as Hc.
  destruct (render_cell E flag idx tid labels r_idx fc col_i v) as [td ws].
  specialize (IH (S col_i)).
  destruct (render_cells E flag idx tid labels r_idx fc (S col_i) vals) as [tds ws'].
  cbn in *. apply Forall_app; split; assumption.
Qed.

Lemma render_row_warnings r_idx r :
  Forall (fun w => is_limit_warning w = false /\ is_cancel_warning w = false)
    (render_row E flag idx tid labels r_idx r).2.
Proof.
  unfold render_row.
  match goal with |- context [render_cells E flag idx tid labels r_idx ?fc 0%nat r] =>
    pose proof (render_cells_warnings fc r_idx r 0%nat) as H;
    destruct (render_cells E flag idx tid labels r_idx fc 0%nat r) as [cs ws]
  end.
  exact H.
Qed.

Lemma rendered_warnings_plain r0 rows :
  Forall (fun w => is_limit_warning w = false /\ is_cancel_warning w = false)
    (rwarns r0 rows).
Proof.
  revert r0. induction rows as [|r rows IH]; intros r0; cbn; [constructor|].
  apply Forall_app; split; [apply render_row_warnings | apply IH].
Qed.




End Loop.
End RowLoop.

(** ** The atomic writer *)

Module AtomicFacts.
Import Text Core.

Lemma str_len_app (a b : string) :
  String.length (a +:+ b) = (String.length a + String.length b)%nat.
Proof.
  induction a as [|c a IH]; [reflexivity|].
  change (S (String.length (a +:+ b)) = S (String.length a + String.length b)).
  rewrite IH. reflexivity.
Qed.

Lemma tmp_ne_gen (path ext : string) :
  nonempty ext = true -> path +:+ ext <> path.
Proof.
  intros He H. apply (f_equal String.length) in H.
  rewrite str_len_app in H. destruct ext; [discriminate He | cbn in H; lia].
Qed.

Lemma tmp_ne (path : string) : path +:+ ".tmp" <> path.
Proof. apply tmp_ne_gen. reflexivity. Qed.

Section Atomic.
Variable E : Env.

(** A successful atomic write leaves the text at the destination. *)
Lemma _default_write_atomic_ok {S : Type} fs path (w : writer S) s chunks s' :
  open_error E (path +:+ ".tmp") = None ->
  replace_error E (path +:+ ".tmp") path = None ->
  w s = ((chunks, Ok tt), s') ->
  _default_write_atomic E fs path w s
  = ((<[path := concat_str chunks]>
        (delete (path +:+ ".tmp") (<[path +:+ ".tmp" := concat_str chunks]> fs)),
      Ok tt), s').
Proof.
  intros Ho Hr Hw. unfold _default_write_atomic. rewrite Ho, Hw. cbn.
  rewrite Hr. reflexivity.
Qed.

(** Whatever step raises, the destination keeps what it held. *)
Lemma _default_write_atomic_untouched {S : Type} fs path (w : writer S) s m :
  (_default_write_atomic E fs path w s).1.2 = Raise m ->
  (_default_write_atomic E fs path w s).1.1 !! path = fs !! path.
Proof.
  unfold _default_write_atomic.
  destruct (open_error E (path +:+ ".tmp")) as [e|]; [reflexivity|].
  destruct (w s) as [[chunks res] s'].
  destruct res as [[]|e]; cbn.
  - destruct (replace_error E (path +:+ ".tmp") path) as [e|]; cbn.
    + intros _. apply lookup_insert_ne, tmp_ne.
    + discriminate.
  - intros _. apply lookup_insert_ne, tmp_ne.
Qed.

(** The fragment renderer on a table whose setup and header succeed and
    whose file can be written: the file holds the fragment text and the
    third component returned is the line count of that text. *)
Lemma fragment_written fs idx df dir cfg flag st cells :
  frag_setup_of E idx df = Ok st ->
  setup_thead idx st = (cells, Ok tt) ->
  fragment_write_ok E dir idx ->
  let lp := setup_loop E flag cfg idx st in
  let text := fragment_text idx st cells (l_rows lp) (l_r_idx lp) in
  exists fs',
    _render_table_fragment_to_file E fs idx df dir cfg flag
    = (fs', Ok (idx, frag_path dir idx, count_lines text, l_warnings lp))
    /\ fs' !! frag_path dir idx = Some text.
Proof.
  intros Hst Hth (Haw & Ho & Hr) lp text.
  unfold _render_table_fragment_to_file. rewrite Hst, Haw.
  erewrite _default_write_atomic_ok; [| exact Ho | exact Hr |].
  2:{ unfold frag_writer. rewrite Hth. reflexivity. }
  cbn [app]. eexists. split.
  - unfold final_count_of. rewrite lookup_insert_eq. reflexivity.
  - apply lookup_insert_eq.
Qed.

End Atomic.
End AtomicFacts.

(** ** The fragment renderer: row limit, cancellation, footer *)

Module FragmentFacts.
Import Text Core Envs RowLoop AtomicFacts.

Section Fragment.
Variable E : Env.

Lemma render_cells_clean flag idx tid labels r_idx fc vals :
  no_cell_failures E -> forall col_i,
  (render_cells E flag idx tid labels r_idx fc col_i vals).2 = [].
Proof.
  intros Hok. induction vals as [|v vals IH]; intros col_i; [reflexivity|].
  cbn [render_cells].
  assert (Hc : (render_cell E flag idx tid labels r_idx fc col_i v).2 = []).
  { unfold render_cell.
    destruct (Hok (match v with VNone => "" | _ => py_str v end)) as [_ [c Hc]].
    rewrite Hc. destruct (Hok c) as [[h Hh] _]. rewrite Hh.
    destruct flag; reflexivity. }
  destruct (render_cell E flag idx tid labels r_idx fc col_i v) as [td ws].
  specialize (IH (S col_i)).
  destruct (render_cells E flag idx tid labels r_idx fc (S col_i) vals) as [tds ws'].
  cbn in *. subst. reflexivity.
Qed.

Lemma rendered_warnings_clean flag idx tid labels rows :
  no_cell_failures E -> forall r0,
  rendered_warnings E flag idx tid labels r0 rows = [].
Proof.
  intros Hok. induction rows as [|r rows IH]; intros r0; [reflexivity|].
  cbn [rendered_warnings]. rewrite IH, app_nil_r. unfold render_row.
  match goal with |- context [render_cells E flag idx tid labels ?n ?fc 0%nat r] =>
    pose proof (render_cells_clean flag idx tid labels n fc r Hok 0%nat) as H;
    destruct (render_cells E flag idx tid labels n fc 0%nat r) as [cs ws]
  end.
  exact H.
Qed.

Lemma over_limit_below cfg (R j : nat) :
  table_row_limit cfg = Z.of_nat R -> (j <= R)%nat -> over_limit cfg j = false.
Proof.
  intros HR Hj. unfold over_limit. rewrite HR.
  destruct (Z.ltb_spec (Z.of_nat R) (Z.of_nat j)); [lia|].
  apply andb_false_r.
Qed.

Lemma over_limit_above cfg (R : nat) :
  (0 < R)%nat -> table_row_limit cfg = Z.of_nat R -> over_limit cfg (S R) = true.
Proof.
  intros H0 HR. unfold over_limit. rewrite HR.
  destruct (Z.eqb_spec (Z.of_nat R) 0); [lia|].
  destruct (Z.ltb_spec (Z.of_nat R) (Z.of_nat (S R))); [reflexivity|lia].
Qed.

Lemma take_drop_next {A : Type} (l : list A) n :
  (n < length l)%nat -> exists x rest, l = take n l ++ x :: rest.
Proof.
  intros Hn. destruct (drop n l) as [|x rest] eqn:Hd.
  - apply (f_equal length) in Hd. rewrite length_drop in Hd. cbn in Hd. lia.
  - exists x, rest. rewrite <- Hd. symmetry. apply take_drop.
Qed.

(** The loop over a stream of more than [R] rows under a limit of [R],
    the flag being clear at the first [R + 1] row boundaries. *)
Lemma setup_loop_limit flag cfg idx st (R : nat) :
  (0 < R)%nat ->
  table_row_limit cfg = Z.of_nat R ->
  (forall j, (j <= R)%nat -> cancel_observed cfg idx j = false) ->
  (R < length (s_rows (fs_stream st)))%nat ->
  setup_loop E flag cfg idx st
  = mkLoop (S R)
      (rendered_rows E flag idx (fs_table_id st) (fs_labels st) 0
         (take R (s_rows (fs_stream st))))
      (rendered_warnings E flag idx (fs_table_id st) (fs_labels st) 0
         (take R (s_rows (fs_stream st)))
       ++ [warn_row_limit idx (S R)]).
Proof.
  intros H0 HR Hc Hlen. unfold setup_loop.
  destruct (take_drop_next _ _ Hlen) as (x & rest & Hsplit).
  assert (Htl : length (take R (s_rows (fs_stream st))) = R)
    by (rewrite length_take; lia).
  rewrite Hsplit at 1.
  rewrite row_loop_prefix.
  - rewrite Htl. cbn [Nat.add].
    rewrite row_loop_limit by (first [apply Hc; lia | apply over_limit_above; assumption]).
    cbn. rewrite app_nil_r. reflexivity.
  - intros j Hj. apply Hc. lia.
  - intros j Hj. apply (over_limit_below cfg R); [assumption | lia].
Qed.

(** The loop when the flag is first seen set at row boundary [k]. *)
Lemma setup_loop_cancel flag cfg idx st (k : nat) :
  (forall j, (j < k)%nat -> cancel_observed cfg idx j = false) ->
  cancel_observed cfg idx k = true ->
  (k < length (s_rows (fs_stream st)))%nat ->
  (forall j, (0 < j <= k)%nat -> over_limit cfg j = false) ->
  setup_loop E flag cfg idx st
  = mkLoop k
      (rendered_rows E flag idx (fs_table_id st) (fs_labels st) 0
         (take k (s_rows (fs_stream st))))
      (rendered_warnings E flag idx (fs_table_id st) (fs_labels st) 0
         (take k (s_rows (fs_stream st)))
       ++ [warn_canceled idx]).
Proof.
  intros Hc Hk Hlen Hl. unfold setup_loop.
  destruct (take_drop_next _ _ Hlen) as (x & rest & Hsplit).
  assert (Htl : length (take k (s_rows (fs_stream st))) = k)
    by (rewrite length_take; lia).
  rewrite Hsplit at 1.
  rewrite row_loop_prefix.
  - rewrite Htl. cbn [Nat.add].
    rewrite row_loop_cancel by assumption.
    cbn. rewrite app_nil_r. reflexivity.
  - intros j Hj. apply Hc. lia.
  - intros j Hj. apply Hl. lia.
Qed.

Lemma filter_cancel_plain (ws : list warning) :
  Forall (fun w => is_limit_warning w = false /\ is_cancel_warning w = false) ws ->
  filter (fun w => is_cancel_warning w = true) ws = [].
Proof.
  induction 1 as [|w ws [_ Hw] _ IH]; [reflexivity|].
  rewrite filter_cons_False by congruence. exact IH.
Qed.

End Fragment.
End FragmentFacts.

(** ** Row limit, cancellation and the footer of a fragment *)

Module FragmentClaims.
Import Text Core Envs RowLoop AtomicFacts FragmentFacts.

(** C2, as amended.  A table whose stream holds more than [R] rows,
    rendered under [table_row_limit = R > 0] with no cancellation, no
    failing cell and a writable fragment file: the fragment's tbody holds
    exactly the first [R] rows, the only warning recorded is the warn-level
    limit note naming the table, and the third component returned is the
    number of text lines of the fragment file. *)
Theorem row_limit_truncates (E : Env) fs idx df dir cfg flag st cells (R : nat) :
  (0 < R)%nat ->
  table_row_limit cfg = Z.of_nat R ->
  cancel_event cfg = None ->
  frag_setup_of E idx df = Ok st ->
  setup_thead idx st = (cells, Ok tt) ->
  (R < length (s_rows (fs_stream st)))%nat ->
  no_cell_failures E ->
  fragment_write_ok E dir idx ->
  let rows :=
    rendered_rows E flag idx (fs_table_id st) (fs_labels st) 0
      (take R (s_rows (fs_stream st))) in
  let text := fragment_text idx st cells rows (S R) in
  let note := warn_row_limit idx (S R) in
  exists fs',
    _render_table_fragment_to_file E fs idx df dir cfg flag
    = (fs', Ok (idx, frag_path dir idx, count_lines text, [note]))
    /\ length rows = R
    /\ fs' !! frag_path dir idx = Some text
    /\ w_level note = Warn /\ w_table note = Some (Some idx).
Proof.
  intros H0 HR Hce Hst Hth Hlen Hok Hw rows text note.
  destruct (fragment_written E fs idx df dir cfg flag st cells Hst Hth Hw)
    as (fs' & Hret & Hfile).
  assert (Hc : forall j, (j <= R)%nat -> cancel_observed cfg idx j = false)
    by (intros j _; unfold cancel_observed; rewrite Hce; reflexivity).
  rewrite (setup_loop_limit E flag cfg idx st R H0 HR Hc Hlen) in Hret, Hfile.
  rewrite rendered_warnings_clean in Hret by assumption.
  cbn [l_rows l_r_idx l_warnings app] in Hret, Hfile.
  exists fs'. repeat split; try assumption.
  unfold rows. rewrite rendered_rows_length, length_take. lia.
Qed.

Lemma row_limit_truncates_witness :
  (0 < 2)%nat
  /\ table_row_limit limit_two = Z.of_nat 2
  /\ cancel_event limit_two = None
  /\ frag_setup_of spec_env 1 abc = Ok abc_setup
  /\ setup_thead 1 abc_setup = (abc_cells, Ok tt)
  /\ (2 < length (s_rows (fs_stream abc_setup)))%nat
  /\ no_cell_failures spec_env
  /\ fragment_write_ok spec_env frag_dir 1
  /\ exists fs',
       _render_table_fragment_to_file spec_env ∅ 1 abc frag_dir limit_two true
       = (fs', Ok (1, frag_path frag_dir 1,
                   count_lines
                     (fragment_text 1 abc_setup abc_cells (abc_rows true 2) 3),
                   [warn_row_limit 1 3]))
       /\ length (abc_rows true 2) = 2%nat
       /\ fs' !! frag_path frag_dir 1
          = Some (fragment_text 1 abc_setup abc_cells (abc_rows true 2) 3)
       /\ w_level (warn_row_limit 1 3) = Warn
       /\ w_table (warn_row_limit 1 3) = Some (Some 1).
Proof.
  assert (H1 : (0 < 2)%nat) by lia.
  assert (H2 : table_row_limit limit_two = Z.of_nat 2) by reflexivity.
  assert (H3 : cancel_event limit_two = None) by reflexivity.
  assert (H4 : frag_setup_of spec_env 1 abc = Ok abc_setup)
    by (vm_compute; reflexivity).
  assert (H5 : setup_thead 1 abc_setup = (abc_cells, Ok tt))
    by (vm_compute; reflexivity).
  assert (H6 : (2 < length (s_rows (fs_stream abc_setup)))%nat)
    by (vm_compute; lia).
  assert (H7 : no_cell_failures spec_env)
    by (intros s; split; eexists; reflexivity).
  assert (H8 : fragment_write_ok spec_env frag_dir 1)
    by (repeat split; reflexivity).
  repeat (split; [assumption|]).
  exact (row_limit_truncates spec_env ∅ 1 abc frag_dir limit_two true
           abc_setup abc_cells 2 H1 H2 H3 H4 H5 H6 H7 H8).
Defined.

(** C2 as stated fails: three rows under a limit of 2, with no
    cancellation and no failure, give two rows in the tbody and a third
    component of 1, the fragment being one line of text; the third component
    is not the limit.  The same holds with the in-source row adapter. *)
Lemma third_component_is_not_row_count :
  (exists fs' n ws,
     _render_table_fragment_to_file spec_env ∅ 1 abc frag_dir limit_two true
     = (fs', Ok (1, frag_path frag_dir 1, n, ws))
     /\ (Z.of_nat (length (s_rows (t_rows abc))) > table_row_limit limit_two)
     /\ cancel_event limit_two = None
     /\ ws = [warn_row_limit 1 3]
     /\ n = 1%nat
     /\ Z.of_nat n <> table_row_limit limit_two)
  /\ (exists fs' n ws,
        _render_table_fragment_to_file src_env ∅ 1 abc frag_dir limit_two true
        = (fs', Ok (1, frag_path frag_dir 1, n, ws))
        /\ Z.of_nat n <> table_row_limit limit_two).
Proof.
  split.
  - eexists _, _, _. split; [vm_compute; reflexivity|].
    repeat split; discriminate.
  - eexists _, _, _. split; [vm_compute; reflexivity|]. discriminate.
Qed.

(** C5.  When the flag is first seen set at row boundary [k] (there is a
    row to fetch at that boundary and the row limit was not reached before
    it), the rows written are exactly the first [k] rows, one cancellation
    note of level warn is recorded for the table, and the finalized fragment
    file holds those [k] rows. *)
Theorem cancellation_keeps_written_rows (E : Env) fs idx df dir cfg flag st
    cells (k : nat) :
  frag_setup_of E idx df = Ok st ->
  setup_thead idx st = (cells, Ok tt) ->
  fragment_write_ok E dir idx ->
  (forall j, (j < k)%nat -> cancel_observed cfg idx j = false) ->
  cancel_observed cfg idx k = true ->
  (k < length (s_rows (fs_stream st)))%nat ->
  (forall j, (0 < j <= k)%nat -> over_limit cfg j = false) ->
  let pre := take k (s_rows (fs_stream st)) in
  let rows := rendered_rows E flag idx (fs_table_id st) (fs_labels st) 0 pre in
  exists fs' n ws,
    _render_table_fragment_to_file E fs idx df dir cfg flag
    = (fs', Ok (idx, frag_path dir idx, n, ws))
    /\ l_rows (setup_loop E flag cfg idx st) = rows
    /\ length rows = k
    /\ filter (fun w => is_cancel_warning w = true) ws = [warn_canceled idx]
    /\ w_level (warn_canceled idx) = Warn
    /\ fs' !! frag_path dir idx = Some (fragment_text idx st cells rows k).
Proof.
  intros Hst Hth Hw Hc Hk Hlen Hl pre rows.
  destruct (fragment_written E fs idx df dir cfg flag st cells Hst Hth Hw)
    as (fs' & Hret & Hfile).
  rewrite (setup_loop_cancel E flag cfg idx st k Hc Hk Hlen Hl) in Hret, Hfile |- *.
  cbn [l_rows l_r_idx l_warnings] in Hret, Hfile |- *.
  eexists fs', _, _. split; [exact Hret|].
  repeat split; try assumption.
  - unfold rows, pre. rewrite rendered_rows_length, length_take. lia.
  - rewrite filter_app, filter_cancel_plain by apply rendered_warnings_plain.
    reflexivity.
Qed.

Lemma cancellation_keeps_written_rows_witness :
  frag_setup_of spec_env 1 abc = Ok abc_setup
  /\ setup_thead 1 abc_setup = (abc_cells, Ok tt)
  /\ fragment_write_ok spec_env frag_dir 1
  /\ (forall j, (j < 2)%nat -> cancel_observed cancel_after_two 1 j = false)
  /\ cancel_observed cancel_after_two 1 2 = true
  /\ (2 < length (s_rows (fs_stream abc_setup)))%nat
  /\ (forall j, (0 < j <= 2)%nat -> over_limit cancel_after_two j = false)
  /\ exists fs' n ws,
       _render_table_fragment_to_file spec_env ∅ 1 abc frag_dir
         cancel_after_two true
       = (fs', Ok (1, frag_path frag_dir 1, n, ws))
       /\ l_rows (setup_loop spec_env true cancel_after_two 1 abc_setup)
          = abc_rows true 2
       /\ length (abc_rows true 2) = 2%nat
       /\ filter (fun w => is_cancel_warning w = true) ws = [warn_canceled 1]
       /\ w_level (warn_canceled 1) = Warn
       /\ fs' !! frag_path frag_dir 1
          = Some (fragment_text 1 abc_setup abc_cells (abc_rows true 2) 2).
Proof.
  assert (H1 : frag_setup_of spec_env 1 abc = Ok abc_setup)
    by (vm_compute; reflexivity).
  assert (H2 : setup_thead 1 abc_setup = (abc_cells, Ok tt))
    by (vm_compute; reflexivity).
  assert (H3 : fragment_write_ok spec_env frag_dir 1)
    by (repeat split; reflexivity).
  assert (H4 : forall j, (j < 2)%nat -> cancel_observed cancel_after_two 1 j = false).
  { intros j Hj. destruct j as [|[|j]]; [reflexivity | reflexivity | lia]. }
  assert (H5 : cancel_observed cancel_after_two 1 2 = true) by reflexivity.
  assert (H6 : (2 < length (s_rows (fs_stream abc_setup)))%nat)
    by (vm_compute; lia).
  assert (H7 : forall j, (0 < j <= 2)%nat -> over_limit cancel_after_two j = false)
    by (intros j _; reflexivity).
  repeat (split; [assumption|]).
  exact (cancellation_keeps_written_rows spec_env ∅ 1 abc frag_dir
           cancel_after_two true abc_setup abc_cells 2 H1 H2 H3 H4 H5 H6 H7).
Defined.



End FragmentClaims.

(** ** The in-source id sanitizer on [Table<N>] *)

Module SanitizeFacts.
Import Text Core.

Lemma app_cons (c : ascii) (a b : string) :
  String c a +:+ b = String c (a +:+ b).
Proof. reflexivity. Qed.

Lemma all_chars_app p (a b : string) :
  all_chars p (a +:+ b) = all_chars p a && all_chars p b.
Proof.
  induction a as [|c a IH]; [reflexivity|].
  rewrite app_cons. cbn [all_chars]. rewrite IH, andb_assoc. reflexivity.
Qed.

Lemma all_chars_impl (p q : ascii -> bool) s :
  (forall c, p c = true -> q c = true) ->
  all_chars p s = true -> all_chars q s = true.
Proof.
  intros Hpq. induction s as [|c s IH]; [reflexivity|]. cbn.
  intros [Hc Hs]%andb_true_iff. rewrite (Hpq c Hc), (IH Hs). reflexivity.
Qed.

Lemma uint_digits d : all_chars is_digit (NilEmpty.string_of_uint d) = true.
Proof. induction d; cbn; [reflexivity | assumption ..]. Qed.

(** [str(n)] of a non-negative integer is a non-empty run of digits. *)
Lemma str_of_Z_digits z :
  0 <= z -> all_chars is_digit (str_of_Z z) = true /\ nonempty (str_of_Z z) = true.
Proof.
  intros Hz. unfold str_of_Z. destruct z as [|p|p]; [split; reflexivity | | lia].
  cbn [Z.to_int NilZero.string_of_int]. unfold NilZero.string_of_uint.
  destruct (Pos.to_uint p); cbn; split; try reflexivity; apply uint_digits.
Qed.

Ltac code_cases :=
  repeat match goal with
  | |- context [(?a <=? ?b)%nat] => destruct (Nat.leb_spec a b)
  | H : context [(?a <=? ?b)%nat] |- _ => destruct (Nat.leb_spec a b)
  end; cbn in *; try congruence; try lia.

Lemma digit_not_upper c : is_digit c = true -> is_upper c = false.
Proof. unfold is_digit, is_upper. intros H. code_cases. Qed.

Lemma digit_not_space c : is_digit c = true -> negb (is_space c) = true.
Proof. unfold is_digit, is_space. intros H. code_cases. Qed.

Lemma digit_id_ok c : is_digit c = true -> id_char_ok c = true.
Proof. unfold id_char_ok. intros ->. rewrite !orb_true_r. reflexivity. Qed.

Lemma digit_not_dash c : is_digit c = true -> negb (eqc c "-") = true.
Proof.
  intros H. unfold eqc. destruct (Ascii.eqb_spec c "-") as [->|]; [|reflexivity].
  discriminate H.
Qed.

Lemma lower_digits s : all_chars is_digit s = true -> lower s = s.
Proof.
  induction s as [|c s IH]; [reflexivity|]. cbn.
  intros [Hc Hs]%andb_true_iff. fold (lower s). rewrite (IH Hs).
  unfold lower_char. rewrite (digit_not_upper c Hc). reflexivity.
Qed.

Lemma rev_str_rev_str s : forall acc acc',
  rev_str (rev_str s acc) acc' = rev_str acc (s +:+ acc').
Proof.
  induction s as [|c s IH]; intros acc acc'; [reflexivity|].
  cbn [rev_str]. rewrite IH. reflexivity.
Qed.

Lemma all_chars_rev_str p s : forall acc,
  all_chars p (rev_str s acc) = all_chars p s && all_chars p acc.
Proof.
  induction s as [|c s IH]; intros acc; [reflexivity|].
  cbn [rev_str all_chars]. rewrite IH. cbn [all_chars].
  destruct (p c), (all_chars p s); reflexivity.
Qed.

Lemma lstrip_by_none p s :
  all_chars (fun c => negb (p c)) s = true -> lstrip_by p s = s.
Proof.
  destruct s as [|c s]; [reflexivity|]. cbn.
  intros [Hc _]%andb_true_iff. apply negb_true_iff in Hc. rewrite Hc. reflexivity.
Qed.

Lemma append_empty_r (s : string) : s +:+ "" = s.
Proof.
  induction s as [|c s IH]; [reflexivity|]. rewrite app_cons, IH. reflexivity.
Qed.

(** Stripping removes nothing from a text that has no such character. *)
Lemma strip_by_none p s :
  all_chars (fun c => negb (p c)) s = true -> strip_by p s = s.
Proof.
  intros H. unfold strip_by, rstrip_by. rewrite (lstrip_by_none p s H).
  rewrite lstrip_by_none.
  - rewrite rev_str_rev_str. cbn. apply append_empty_r.
  - rewrite all_chars_rev_str, H. reflexivity.
Qed.

Lemma sub_bad_runs_ok s : forall b,
  all_chars id_char_ok s = true -> sub_bad_runs s b = s.
Proof.
  induction s as [|c s IH]; intros b; [reflexivity|]. cbn.
  intros [Hc Hs]%andb_true_iff. rewrite Hc, (IH false Hs). reflexivity.
Qed.

Lemma collapse_dashes_none s : forall b,
  all_chars (fun c => negb (eqc c "-")) s = true -> collapse_dashes s b = s.
Proof.
  induction s as [|c s IH]; intros b; [reflexivity|]. cbn.
  intros [Hc Hs]%andb_true_iff. apply negb_true_iff in Hc.
  rewrite Hc, (IH false Hs). reflexivity.
Qed.

Lemma eqc_sym a b : eqc a b = eqc b a.
Proof. unfold eqc. apply Ascii.eqb_sym. Qed.

(** The in-source sanitizer lower-cases the prefix of [Table<N>]. *)
Lemma src_sanitize_id_table z i :
  0 <= z -> src_sanitize_id ("Table" +:+ str_of_Z z) i = "table" +:+ str_of_Z z.
Proof.
  intros Hz. destruct (str_of_Z_digits z Hz) as [Hd Hn].
  set (ds := str_of_Z z) in *.
  assert (Hsp : all_chars (fun c => negb (is_space c)) ("Table" +:+ ds) = true).
  { rewrite all_chars_app. rewrite (all_chars_impl _ _ ds digit_not_space Hd).
    reflexivity. }
  assert (Hok : all_chars id_char_ok ("table" +:+ ds) = true).
  { rewrite all_chars_app. rewrite (all_chars_impl _ _ ds digit_id_ok Hd).
    reflexivity. }
  assert (Hnd : all_chars (fun c => negb (eqc c "-")) ("table" +:+ ds) = true).
  { rewrite all_chars_app. rewrite (all_chars_impl _ _ ds digit_not_dash Hd).
    reflexivity. }
  assert (Hnd' : all_chars (fun c => negb (eqc "-" c)) ("table" +:+ ds) = true).
  { eapply all_chars_impl; [|exact Hnd]. intros c Hc. cbv beta in *.
    rewrite (eqc_sym "-" c). exact Hc. }
  unfold src_sanitize_id, strip, strip_dash.
  rewrite (strip_by_none is_space _ Hsp).
  assert (Hlow : lower ("Table" +:+ ds) = "table" +:+ ds).
  { change (lower ("Table" +:+ ds)) with ("table" +:+ lower ds).
    rewrite (lower_digits ds Hd). reflexivity. }
  rewrite Hlow, (sub_bad_runs_ok _ false Hok), (collapse_dashes_none _ false Hnd).
  rewrite (strip_by_none (eqc "-") _ Hnd'). reflexivity.
Qed.

End SanitizeFacts.

(** ** The attribute contract of the header cells *)

Module HeaderClaims.
Import Text Core Envs SanitizeFacts.

Lemma thead_cells_spec idx tid cts cols : forall i0 cells,
  thead_cells idx tid cts i0 cols = (cells, Ok tt) ->
  length cells = length cols
  /\ forall i c, cells !! i = Some c ->
       th_table_index c = idx - 1 /\ th_col_index c = (i0 + i)%nat
       /\ th_id c = tid +:+ "-th-" +:+ str_of_nat (i0 + i).
Proof.
  induction cols as [|[col lab] cols IH]; intros i0 cells H; cbn in H.
  - injection H as <-. split; [reflexivity|]. intros i c Hc. discriminate Hc.
  - destruct (cts !! i0) as [ct|]; [|discriminate H].
    destruct (thead_cells idx tid cts (S i0) cols) as [cells' res] eqn:Hrec.
    injection H as <- ->. destruct (IH (S i0) cells' Hrec) as [Hlen Hall].
    split; [cbn; rewrite Hlen; reflexivity|].
    intros [|i] c Hc; cbn in Hc.
    + injection Hc as <-. rewrite Nat.add_0_r. cbn. auto.
    + destruct (Hall i c Hc) as (H1 & H2 & H3).
      replace (i0 + S i)%nat with (S i0 + i)%nat by lia. auto.
Qed.

Lemma frag_setup_fields (E : Env) idx df st :
  frag_setup_of E idx df = Ok st ->
  fs_table_id st = table_id_of E idx
  /\ length (fs_headers_html st) = length (fs_cols st).
Proof.
  unfold frag_setup_of.
  destruct (_prepare_table_stream E df) as [[cols sample] it].
  destruct (_detect_column_types E sample cols) as [cts|m]; [|discriminate].
  destruct (_derive_titles E idx cols sample df) as [[[t d] ti] th].
  intros [= <-]. cbn. split; [reflexivity | apply length_map].
Qed.

(** C8, as amended.  In the fragment of table [idx], the header cell of
    column [i] carries [data-table-index = idx - 1] and
    [data-col-index = i]; its element id is
    [_sanitize_id("Table<idx>")-th-<i>], which with the in-source
    [_sanitize_id] is [table<idx>-th-<i>], in lower case. *)
Theorem header_cell_contract (E : Env) idx df st cells :
  frag_setup_of E idx df = Ok st ->
  setup_thead idx st = (cells, Ok tt) ->
  length cells = length (fs_cols st)
  /\ forall i c, cells !! i = Some c ->
       th_table_index c = idx - 1
       /\ th_col_index c = i
       /\ th_id c = table_id_of E idx +:+ "-th-" +:+ str_of_nat i
       /\ (_sanitize_id E = src_sanitize_id -> 0 <= idx ->
           th_id c = "table" +:+ str_of_Z idx +:+ "-th-" +:+ str_of_nat i)
       /\ th_writes c !! 0%nat
          = Some ("<th " +:+ attr "id" (th_id c) +:+ " "
                    +:+ attr "class" (th_class c) +:+ " "
                    +:+ attr "data-table-index" (str_of_Z (idx - 1)) +:+ " "
                    +:+ attr "data-col-index" (str_of_nat i) +:+ " "
                    +:+ attr "role" "button" +:+ " "
                    +:+ attr "aria-label" (th_aria c) +:+ ">").
Proof.
  intros Hst Hth. destruct (frag_setup_fields E idx df st Hst) as [Htid Hlen].
  unfold setup_thead in Hth.
  destruct (thead_cells_spec _ _ _ _ _ _ Hth) as [Hl Hall].
  split.
  { rewrite Hl, length_zip, Hlen. lia. }
  intros i c Hc. destruct (Hall i c Hc) as (H1 & H2 & H3).
  cbn [Nat.add] in H2, H3. rewrite Htid in H3.
  repeat split; try assumption.
  - intros Hsan Hidx. rewrite H3. unfold table_id_of. rewrite Hsan.
    rewrite src_sanitize_id_table by assumption. reflexivity.
  - cbn. rewrite H1, H2. reflexivity.
Qed.

Lemma header_cell_contract_witness :
  frag_setup_of spec_env 1 abc = Ok abc_setup
  /\ setup_thead 1 abc_setup = (abc_cells, Ok tt)
  /\ length abc_cells = length (fs_cols abc_setup)
  /\ forall i c, abc_cells !! i = Some c ->
       th_table_index c = 1 - 1
       /\ th_col_index c = i
       /\ th_id c = table_id_of spec_env 1 +:+ "-th-" +:+ str_of_nat i.
Proof.
  assert (H1 : frag_setup_of spec_env 1 abc = Ok abc_setup)
    by (vm_compute; reflexivity).
  assert (H2 : setup_thead 1 abc_setup = (abc_cells, Ok tt))
    by (vm_compute; reflexivity).
  destruct (header_cell_contract spec_env 1 abc abc_setup abc_cells H1 H2)
    as [Hlen Hall].
  repeat (split; [assumption|]).
  intros i c Hc. destruct (Hall i c Hc) as (Ha & Hb & Hc' & _).
  auto.
Defined.

(** C8 as stated fails on the element id: for table 1 the only header cell
    of [abc] has the id [table1-th-0], not [Table1-th-0]. *)
Lemma header_id_is_lower_case :
  exists c,
    frag_setup_of spec_env 1 abc = Ok abc_setup
    /\ setup_thead 1 abc_setup = ([c], Ok tt)
    /\ th_id c = "table1-th-0"
    /\ th_id c <> "Table" +:+ str_of_Z 1 +:+ "-th-" +:+ str_of_nat 0.
Proof.
  eexists. split; [vm_compute; reflexivity|].
  split; [vm_compute; reflexivity|].
  split; [reflexivity | discriminate].
Qed.

End HeaderClaims.

(** ** The orchestrator: fallback, write failure, empty input *)

Module OrchestratorClaims.
Import Text Core Envs PoolFacts AtomicFacts SanitizeFacts.

Lemma existsb_false_Forall {A : Type} (f : A -> bool) l :
  existsb f l = false <-> Forall (fun x => f x = false) l.
Proof.
  induction l as [|x l IH]; cbn.
  - split; [constructor | reflexivity].
  - rewrite orb_false_iff, IH. split.
    + intros [? ?]. constructor; assumption.
    + intros H. inversion H; subst. auto.
Qed.

Lemma any_with_rows_false (fm : gmap Z frag_meta) :
  any_with_rows fm = false
  <-> forall i m, fm !! i = Some m -> _frag_contains_rows (fm_content m) = false.
Proof.
  unfold any_with_rows. rewrite existsb_false_Forall, Forall_forall. split.
  - intros H i m Him. apply (H (i, m)). apply elem_of_map_to_list. exact Him.
  - intros H [i m] Him. apply elem_of_map_to_list in Him. apply (H i m Him).
Qed.

Lemma fallback_decision_flag (fm : gmap Z frag_meta) ws ws' :
  (fallback_decision fm ws).1 = (fallback_decision fm ws').1.
Proof.
  unfold fallback_decision. destruct (decide (fm = ∅)); [reflexivity|].
  destruct (any_with_rows fm); reflexivity.
Qed.

Lemma assemble_decision (E : Env) fs ws tables out cfg :
  let a := assemble E fs ws tables out cfg in
  a_need_fallback a = (fallback_decision (a_map a) ws).1.
Proof.
  unfold assemble. cbv zeta.
  destruct (run_pool E fs 1 tables (tmp_frag_dir_of E out) cfg) as [fs1 results].
  set (st := collect E fs1 ws _).
  destruct (fallback_decision (c_map st) (c_warnings st)) as [nf w1] eqn:Hd.
  destruct (_build_head_parts E fs1 out cfg) as [[hp pt] hr].
  destruct (inline_all E 1 tables) as [[ip it] iw].
  cbn. rewrite (fallback_decision_flag (c_map st) ws (c_warnings st)), Hd.
  reflexivity.
Qed.

(** C6.  The inline fallback is taken exactly when the fragment map is
    empty or no fragment text matches the tbody-row pattern; exactly then
    one warning explaining the fallback is appended; otherwise the body of
    the final document is the stream copy of the fragment files, in the
    order given.  The flag of [assemble] is this decision. *)
Theorem fallback_iff_no_fragment_rows (fm : gmap Z frag_meta) (ws : list warning)
    (fs : gmap string string) (frag_paths inline_parts : list string) :
  let d := fallback_decision fm ws in
  (d.1 = true <->
     fm = ∅ \/ forall i m, fm !! i = Some m ->
                 _frag_contains_rows (fm_content m) = false)
  /\ (d.1 = true ->
      (fm = ∅ /\ d.2 = ws ++ [warn_no_fragments])
      \/ (fm <> ∅ /\ d.2 = ws ++ [warn_no_rows]))
  /\ (d.1 = false -> d.2 = ws)
  /\ body_chunks fs false frag_paths inline_parts
     = omap (fun fp => fs !! fp) frag_paths
  /\ body_chunks fs true frag_paths inline_parts
     = concat (map (fun h => [h; nl]) inline_parts)
  /\ (forall E fs0 ws0 tables out cfg,
        let a := assemble E fs0 ws0 tables out cfg in
        a_need_fallback a = (fallback_decision (a_map a) ws0).1).
Proof.
  cbv zeta. unfold fallback_decision.
  destruct (decide (fm = ∅)) as [He|Hne]; cbn [fst snd].
  - repeat split; auto; try discriminate; intros; apply assemble_decision.
  - destruct (any_with_rows fm) eqn:Hany; cbn [fst snd].
    + repeat split; auto; try discriminate.
      * intros [He|Hall]; [contradiction|].
        apply any_with_rows_false in Hall. congruence.
      * intros; apply assemble_decision.
    + repeat split; auto; try discriminate.
      * intros _. right. apply any_with_rows_false. exact Hany.
      * intros; apply assemble_decision.
Qed.

Lemma render_html_unsplit (E : Env) fuel fs tables out cfg rh :
  split_taken cfg tables = false ->
  render_html E (S fuel) fs tables out cfg rh
  = Some (render_unsplit E (provision_assets E fs out).1
            (provision_assets E fs out).2 tables out cfg rh).
Proof.
  intros Hs. cbn [render_html].
  destruct (provision_assets E fs out) as [fs1 ws]. rewrite Hs. reflexivity.
Qed.

(** C7.  When the atomic write of the final document raises,
    [render_html] returns a result holding the warnings accumulated so far
    and one error-level [write_failed] warning, with tables, rows and
    output unset; with the built-in atomic writer the destination holds
    what it held before the write. *)
Theorem write_failure_is_reported (E : Env) fuel fs tables out cfg rh m :
  split_taken cfg tables = false ->
  _atomic_write E = None ->
  let fs1 := (provision_assets E fs out).1 in
  let a := assemble E fs1 (provision_assets E fs out).2 tables out cfg in
  (_default_write_atomic E fs1 (out_str out)
     (fun _ : unit => ((a_chunks a, Ok tt), tt)) tt).1.2 = Raise m ->
  exists fs',
    render_html E (S fuel) fs tables out cfg rh
    = Some (fs', mkResult (a_warnings a ++ [warn_write_failed m])
                   None None None None None None)
    /\ w_level (warn_write_failed m) = Error
    /\ fs' !! out_str out = fs1 !! out_str out.
Proof.
  intros Hs Haw fs1 a Hfail.
  rewrite render_html_unsplit by assumption.
  unfold render_unsplit. fold fs1. fold a. rewrite Haw.
  destruct (assemble_no_fragment E fs1 (provision_assets E fs out).2 tables out cfg)
    as (_ & _ & _ & Hfs). fold a in Hfs. rewrite Hfs.
  pose proof (_default_write_atomic_untouched E fs1 (out_str out)
                (fun _ : unit => ((a_chunks a, Ok tt), tt)) tt m Hfail) as Hun.
  destruct (_default_write_atomic E fs1 (out_str out)
              (fun _ : unit => ((a_chunks a, Ok tt), tt)) tt) as [[fs2 res] u].
  cbn in Hfail, Hun. subst res. eexists. split; [reflexivity|].
  split; [reflexivity | exact Hun].
Qed.

Lemma write_failure_is_reported_witness :
  split_taken default_config [abc] = false
  /\ _atomic_write denied_env = None
  /\ exists fs',
       render_html denied_env 1 ∅ [abc] out_html default_config false
       = Some (fs', mkResult
                      ([warn_table_render arity_error; warn_no_fragments]
                       ++ [warn_write_failed "Permission denied"])
                      None None None None None None)
       /\ fs' !! out_str out_html = None.
Proof.
  assert (H1 : split_taken default_config [abc] = false) by reflexivity.
  assert (H2 : _atomic_write denied_env = None) by reflexivity.
  repeat (split; [assumption|]).
  destruct (write_failure_is_reported denied_env 0 ∅ [abc] out_html
              default_config false "Permission denied" H1 H2)
    as (fs' & Hr & _ & Hd); [vm_compute; reflexivity|].
  exists fs'. split; [exact Hr | exact Hd].
Defined.

End OrchestratorClaims.

(** ** Empty input, and what the pool call does to the row total *)

Module EmptyInputClaims.
Import Text Core Envs PoolFacts AtomicFacts SanitizeFacts OrchestratorClaims.

Lemma append_assoc3 (a b c : string) : (a +:+ b) +:+ c = a +:+ (b +:+ c).
Proof.
  induction a as [|x a IH]; [reflexivity|].
  rewrite !app_cons, IH. reflexivity.
Qed.




Section Empty.
Variable E : Env.




End Empty.




(** On the unsplit path the row total is 0 whatever the tables hold: the
    pool never yields a fragment. *)
Lemma render_unsplit_rows (E : Env) fs ws tables out cfg rh :
  let res := (render_unsplit E fs ws tables out cfg rh).2 in
  r_rows res = None \/ r_rows res = Some 0.
Proof.
  cbv zeta. unfold render_unsplit.
  destruct (assemble_no_fragment E fs ws tables out cfg) as (_ & Ht & _ & _).
  set (a := assemble E fs ws tables out cfg) in *.
  destruct (match _atomic_write E with Some aw => _ | None => _ end)
    as [[fs2 [u|m]] u'].
  - destruct (if gzip_out cfg then _ else _) as [fs3 w3]. right. cbn.
    rewrite Ht. reflexivity.
  - left. reflexivity.
Qed.

End EmptyInputClaims.

(** ** The grouping of the split path *)

Module SplitFacts.
Import Text Core Envs OrchestratorClaims.

Lemma items_cons t tables :
  items_of (t :: tables) = (t, count_rows t) :: items_of tables.
Proof. reflexivity. Qed.





Lemma count_rows_nonneg t : 0 <= count_rows t.
Proof. unfold count_rows. destruct (s_fail (t_rows t)); lia. Qed.











End SplitFacts.

(** ** The split path *)

Module SplitClaims.
Import Text Core Envs AtomicFacts SanitizeFacts OrchestratorClaims SplitFacts.








End SplitClaims.

(** ** Escaping and stripping *)

Module EscapeFacts.
Import Text Core Envs Helpers SanitizeFacts.

Lemma all_chars_replace (q : ascii -> bool) c t s :
  all_chars q t = true ->
  all_chars (fun a => eqc a c || q a) s = true ->
  all_chars q (replace_char c t s) = true.
Proof.
  intros Ht. induction s as [|a s IH]; [reflexivity|].
  cbn [all_chars replace_char]. intros [Ha Hs]%andb_true_iff.
  destruct (eqc a c) eqn:Hac.
  - rewrite all_chars_app, Ht, (IH Hs). reflexivity.
  - cbn [all_chars]. cbn in Ha. rewrite Ha, (IH Hs). reflexivity.
Qed.

Lemma all_chars_weaken (p q : ascii -> bool) s :
  (forall c, p c = true -> q c = true) ->
  all_chars p s = true -> all_chars q s = true.
Proof. apply all_chars_impl. Qed.

Lemma all_chars_true s : all_chars (fun _ => true) s = true.
Proof. induction s as [|c s IH]; [reflexivity | exact IH]. Qed.

Lemma attr_escape_safe (s : string) :
  all_chars markup_safe (_attr_escape s) = true.
Proof.
  unfold _attr_escape.
  apply all_chars_replace; [reflexivity|].
  apply (all_chars_weaken
           (fun a => negb (eqc a "034") && negb (eqc a "'") && negb (eqc a "<")));
    [intros c Hc; unfold markup_safe; destruct (eqc c ">"); [reflexivity|];
     rewrite Hc; reflexivity|].
  apply all_chars_replace; [reflexivity|].
  apply (all_chars_weaken (fun a => negb (eqc a "034") && negb (eqc a "'")));
    [intros c Hc; destruct (eqc c "<"); [reflexivity|]; rewrite Hc; reflexivity|].
  apply all_chars_replace; [reflexivity|].
  apply (all_chars_weaken (fun a => negb (eqc a "034")));
    [intros c Hc; destruct (eqc c "'"); [reflexivity|]; rewrite Hc; reflexivity|].
  apply all_chars_replace; [reflexivity|].
  apply (all_chars_weaken (fun _ => true));
    [intros c _; destruct (eqc c "034"); reflexivity|].
  apply all_chars_true.
Qed.

(** X2.  What [_attr_escape] returns holds no quote and no angle bracket,
    whatever the input. *)
Theorem attr_escape_is_markup_safe (s : string) :
  all_chars markup_safe (_attr_escape s) = true.
Proof. exact (attr_escape_safe s). Qed.

Lemma html_escape_is_markup_safe (s : string) :
  all_chars markup_safe (html_escape s) = true.
Proof.
  unfold html_escape.
  apply all_chars_replace; [reflexivity|].
  apply (all_chars_weaken
           (fun a => negb (eqc a "034") && negb (eqc a "<") && negb (eqc a ">")));
    [intros c Hc; unfold markup_safe; destruct (eqc c "034"), (eqc c "'"),
       (eqc c "<"), (eqc c ">"); cbn in *; congruence|].
  apply all_chars_replace; [reflexivity|].
  apply (all_chars_weaken (fun a => negb (eqc a "<") && negb (eqc a ">")));
    [intros c Hc; destruct (eqc c "034"); [reflexivity|]; cbn; exact Hc|].
  apply all_chars_replace; [reflexivity|].
  apply (all_chars_weaken (fun a => negb (eqc a "<")));
    [intros c Hc; destruct (eqc c ">"); [reflexivity|]; cbn;
     rewrite Hc; reflexivity|].
  apply all_chars_replace; [reflexivity|].
  apply (all_chars_weaken (fun _ => true));
    [intros c _; destruct (eqc c "<"); reflexivity|].
  apply all_chars_true.
Qed.

Lemma html_escape_nonempty s : nonempty s = true -> nonempty (html_escape s) = true.
Proof.
  assert (H : forall c t u, nonempty t = true -> nonempty u = true ->
                            nonempty (replace_char c t u) = true).
  { intros c t u Ht Hu. destruct u as [|a u]; [discriminate|]. cbn.
    destruct (eqc a c); [|reflexivity]. destruct t; [discriminate | reflexivity]. }
  intros Hs. unfold html_escape. repeat (apply H; [reflexivity|]). exact Hs.
Qed.

(** X3.  A caption holds no quote and no angle bracket; the page title
    holds none either and is never empty. *)
Theorem caption_and_page_title_are_escaped (text : string) (cfg : RenderConfig)
    (out : OutPath) :
  all_chars markup_safe (_safe_caption text) = true
  /\ all_chars markup_safe (_compute_page_title cfg out) = true
  /\ nonempty (_compute_page_title cfg out) = true.
Proof.
  split; [|split].
  - unfold _safe_caption. destruct (nonempty (strip text));
      [apply html_escape_is_markup_safe | reflexivity].
  - apply html_escape_is_markup_safe.
  - unfold _compute_page_title. apply html_escape_nonempty.
    destruct (page_title cfg) as [t|].
    + destruct (nonempty t) eqn:Ht; [exact Ht|].
      destruct (nonempty (o_stem out)) eqn:Hs; [exact Hs | reflexivity].
    + destruct (nonempty (o_stem out)) eqn:Hs; [exact Hs | reflexivity].
Qed.

End EscapeFacts.

(** ** Stripping on the right, and the shape of sanitized ids *)

Module StripFacts.
Import Text Core Envs Helpers SanitizeFacts EmptyInputClaims.

Lemma rev_str_acc s : forall acc,
  rev_str s acc = rev_str s "" +:+ acc.
Proof.
  induction s as [|c s IH]; intros acc; [reflexivity|].
  cbn [rev_str]. rewrite (IH (String c acc)), (IH (String c "")).
  rewrite append_assoc3. reflexivity.
Qed.

Lemma rev_str_snoc x c : rev_str (x +:+ String c "") "" = String c (rev_str x "").
Proof.
  induction x as [|a x IH]; [reflexivity|].
  rewrite app_cons. cbn [rev_str].
  rewrite (rev_str_acc (x +:+ String c "")), IH, (rev_str_acc x (String a "")).
  reflexivity.
Qed.

Lemma rev_str_nil_inv s : rev_str s "" = "" -> s = "".
Proof.
  destruct s as [|c s]; [reflexivity|]. cbn [rev_str].
  rewrite rev_str_acc. destruct (rev_str s ""); discriminate.
Qed.

Lemma lstrip_by_app p a b :
  lstrip_by p (a +:+ b)
  = if all_chars p a then lstrip_by p b else lstrip_by p a +:+ b.
Proof.
  induction a as [|c a IH]; [reflexivity|].
  rewrite app_cons. cbn [lstrip_by all_chars].
  destruct (p c); [exact IH | reflexivity].
Qed.

Lemma lstrip_by_nonempty p a : all_chars p a = false -> lstrip_by p a <> "".
Proof.
  induction a as [|c a IH]; [discriminate|]. cbn.
  destruct (p c); [exact IH | discriminate].
Qed.

Lemma lstrip_by_all p a : all_chars p a = true -> lstrip_by p a = "".
Proof.
  induction a as [|c a IH]; [reflexivity|]. cbn.
  intros [Hc Ha]%andb_true_iff. rewrite Hc. exact (IH Ha).
Qed.

(** [rstrip_by], written with two reversals, is the recursion
    [rstrip_rec]. *)
Lemma rstrip_by_rec p s : rstrip_by p s = rstrip_rec p s.
Proof.
  induction s as [|c s IH]; [reflexivity|].
  unfold rstrip_by in *. cbn [rev_str rstrip_rec].
  rewrite (rev_str_acc s (String c "")), lstrip_by_app.
  destruct (all_chars p (rev_str s "")) eqn:Hall.
  - rewrite (lstrip_by_all p _ Hall) in IH. cbn in IH. rewrite <- IH.
    cbn [lstrip_by]. destruct (p c); reflexivity.
  - rewrite rev_str_snoc, IH.
    destruct (rstrip_rec p s) eqn:Hr; [|reflexivity].
    exfalso. apply rev_str_nil_inv in IH.
    exact (lstrip_by_nonempty p _ Hall IH).
Qed.

Lemma strip_by_rec p s : strip_by p s = rstrip_rec p (lstrip_by p s).
Proof. unfold strip_by. apply rstrip_by_rec. Qed.

Lemma all_chars_lstrip q p s :
  all_chars q s = true -> all_chars q (lstrip_by p s) = true.
Proof.
  induction s as [|c s IH]; [reflexivity|]. cbn [lstrip_by].
  intros H. destruct (p c); [|exact H].
  cbn in H. apply andb_true_iff in H as [_ H]. exact (IH H).
Qed.

Lemma all_chars_rstrip q p s :
  all_chars q s = true -> all_chars q (rstrip_rec p s) = true.
Proof.
  induction s as [|c s IH]; [reflexivity|]. cbn [rstrip_rec all_chars].
  intros [Hc Hs]%andb_true_iff. specialize (IH Hs).
  destruct (rstrip_rec p s) as [|c' r'].
  - destruct (p c); [reflexivity|]. cbn. rewrite Hc. reflexivity.
  - cbn [all_chars] in *. rewrite Hc, IH. reflexivity.
Qed.

Lemma all_chars_strip q p s :
  all_chars q s = true -> all_chars q (strip_by p s) = true.
Proof. intros H. rewrite strip_by_rec. apply all_chars_rstrip, all_chars_lstrip, H. Qed.

Lemma rstrip_rec_idem p s : rstrip_rec p (rstrip_rec p s) = rstrip_rec p s.
Proof.
  induction s as [|c s IH]; [reflexivity|]. cbn [rstrip_rec].
  destruct (rstrip_rec p s) as [|c' r'] eqn:Hr.
  - destruct (p c) eqn:Hc; [reflexivity|]. cbn. rewrite Hc. reflexivity.
  - cbn [rstrip_rec]. cbn [rstrip_rec] in IH.
    destruct (match rstrip_rec p r' with
              | "" => if p c' then "" else String c' ""
              | String a s0 => String c' (String a s0)
              end) as [|c'' r''] eqn:Hm; [discriminate IH|].
    rewrite IH. reflexivity.
Qed.

(** A text that does not start with a stripped character is not cut on the
    left by stripping it on the right. *)
Lemma lstrip_rstrip_fixed p s :
  lstrip_by p s = s -> lstrip_by p (rstrip_rec p s) = rstrip_rec p s.
Proof.
  destruct s as [|c s]; [reflexivity|]. cbn [lstrip_by rstrip_rec].
  destruct (p c) eqn:Hc.
  - intros H. exfalso. apply (f_equal String.length) in H.
    assert (Hl : forall t, (String.length (lstrip_by p t) <= String.length t)%nat).
    { induction t as [|a t IHt]; [cbn; lia|]. cbn [lstrip_by].
      destruct (p a); cbn in *; lia. }
    specialize (Hl s). cbn in H. lia.
  - intros _. destruct (rstrip_rec p s); cbn; rewrite Hc; reflexivity.
Qed.

Lemma lstrip_by_idem p s : lstrip_by p (lstrip_by p s) = lstrip_by p s.
Proof.
  induction s as [|c s IH]; [reflexivity|]. cbn [lstrip_by].
  destruct (p c) eqn:Hc; [exact IH|]. cbn. rewrite Hc. reflexivity.
Qed.

(** Stripping twice is stripping once. *)
Lemma strip_by_idem p s : strip_by p (strip_by p s) = strip_by p s.
Proof.
  rewrite !strip_by_rec.
  rewrite (lstrip_rstrip_fixed p (lstrip_by p s)) by apply lstrip_by_idem.
  apply rstrip_rec_idem.
Qed.

Lemma rstrip_rec_none p s :
  all_chars (fun c => negb (p c)) s = true -> rstrip_rec p s = s.
Proof.
  induction s as [|c s IH]; [reflexivity|]. cbn.
  intros [Hc Hs]%andb_true_iff. rewrite (IH Hs).
  apply negb_true_iff in Hc. rewrite Hc. destruct s; reflexivity.
Qed.

Lemma rstrip_rec_app p a b :
  rstrip_rec p b <> "" -> rstrip_rec p (a +:+ b) = a +:+ rstrip_rec p b.
Proof.
  intros Hb. induction a as [|c a IH]; [reflexivity|].
  rewrite !app_cons. cbn [rstrip_rec]. rewrite IH.
  destruct (a +:+ rstrip_rec p b) eqn:Hab; [|reflexivity].
  exfalso. destruct a; [cbn in Hab; exact (Hb Hab) | discriminate Hab].
Qed.

(** *** Single dashes *)

Lemma single_dashes_weaken s : single_dashes s true = true -> single_dashes s false = true.
Proof. destruct s as [|c s]; [reflexivity|]. cbn. destruct (eqc c "-"); [discriminate | auto]. Qed.

Lemma collapse_dashes_single s : forall b, single_dashes (collapse_dashes s b) b = true.
Proof.
  induction s as [|c s IH]; intros b; [reflexivity|]. cbn [collapse_dashes].
  destruct (eqc c "-") eqn:Hc.
  - destruct b; [apply IH|]. cbn. apply IH.
  - cbn [single_dashes]. rewrite Hc. apply IH.
Qed.

Lemma collapse_dashes_fixed s : forall b,
  single_dashes s b = true -> collapse_dashes s b = s.
Proof.
  induction s as [|c s IH]; intros b; [reflexivity|]. cbn. unfold eqc.
  destruct (Ascii.eqb_spec c "-") as [->|Hne].
  - destruct b; [discriminate|]. cbn. intros H. rewrite (IH true H). reflexivity.
  - intros H. rewrite (IH false H). reflexivity.
Qed.

Lemma single_dashes_lstrip s : forall b,
  single_dashes s b = true -> single_dashes (lstrip_by (eqc "-") s) false = true.
Proof.
  induction s as [|c s IH]; intros b; [reflexivity|]. cbn [lstrip_by single_dashes].
  rewrite (eqc_sym "-" c). destruct (eqc c "-") eqn:Hc.
  - intros [_ H]%andb_true_iff. exact (IH true H).
  - intros H. cbn [single_dashes]. rewrite Hc. exact H.
Qed.

Lemma single_dashes_rstrip s : forall b,
  single_dashes s b = true -> single_dashes (rstrip_rec (eqc "-") s) b = true.
Proof.
  induction s as [|c s IH]; intros b; [reflexivity|]. cbn [rstrip_rec single_dashes].
  rewrite (eqc_sym "-" c). destruct (eqc c "-") eqn:Hc.
  - intros [Hb H]%andb_true_iff. specialize (IH true H).
    destruct (rstrip_rec (eqc "-") s) as [|c' r']; [reflexivity|].
    cbn [single_dashes]. rewrite Hc, Hb. exact IH.
  - intros H. specialize (IH false H).
    destruct (rstrip_rec (eqc "-") s) as [|c' r'].
    + cbn. rewrite Hc. reflexivity.
    + cbn [single_dashes]. rewrite Hc. exact IH.
Qed.

End StripFacts.

(** ** Sanitized ids and normalized tokens *)

Module IdFacts.
Import Text Core Envs Helpers SanitizeFacts EmptyInputClaims EscapeFacts StripFacts.

Lemma code_of_nat n : (n < 256)%nat -> code (ascii_of_nat n) = n.
Proof. apply nat_ascii_embedding. Qed.

Lemma code_bound c : (code c < 256)%nat.
Proof. apply nat_ascii_bounded. Qed.

Lemma lower_char_not_upper c : is_upper (lower_char c) = false.
Proof.
  unfold lower_char. destruct (is_upper c) eqn:Hu; [|exact Hu].
  unfold is_upper in *. pose proof (code_bound c).
  rewrite code_of_nat by (code_cases).
  code_cases.
Qed.

Lemma lower_no_upper s : all_chars (fun c => negb (is_upper c)) (lower s) = true.
Proof.
  induction s as [|c s IH]; [reflexivity|]. cbn. fold (lower s).
  rewrite lower_char_not_upper, IH. reflexivity.
Qed.

Lemma lower_fixed s : all_chars (fun c => negb (is_upper c)) s = true -> lower s = s.
Proof.
  induction s as [|c s IH]; [reflexivity|]. cbn. fold (lower s).
  intros [Hc Hs]%andb_true_iff. apply negb_true_iff in Hc.
  unfold lower_char. rewrite Hc, (IH Hs). reflexivity.
Qed.

Lemma sub_bad_runs_chars s : forall b,
  all_chars (fun c => negb (is_upper c)) s = true ->
  all_chars id_out_ok (sub_bad_runs s b) = true.
Proof.
  induction s as [|c s IH]; intros b; [reflexivity|]. cbn [sub_bad_runs all_chars].
  intros [Hc Hs]%andb_true_iff. apply negb_true_iff in Hc.
  destruct (id_char_ok c) eqn:Hok.
  - cbn [all_chars]. rewrite (IH false Hs), andb_true_r.
    unfold id_char_ok in Hok. unfold id_out_ok. rewrite Hc in Hok.
    rewrite orb_false_r in Hok. exact Hok.
  - destruct b; [exact (IH true Hs)|]. cbn [all_chars]. rewrite (IH true Hs).
    reflexivity.
Qed.

Lemma collapse_dashes_chars q s : forall b,
  all_chars q s = true -> all_chars q (collapse_dashes s b) = true.
Proof.
  induction s as [|c s IH]; intros b; [reflexivity|]. cbn [collapse_dashes all_chars].
  intros [Hc Hs]%andb_true_iff. unfold eqc.
  destruct (Ascii.eqb_spec c "-") as [->|Hne].
  - destruct b; [exact (IH true Hs)|]. cbn [all_chars]. rewrite Hc. exact (IH true Hs).
  - cbn [all_chars]. rewrite Hc. exact (IH false Hs).
Qed.

Lemma id_out_not_space c : id_out_ok c = true -> negb (is_space c) = true.
Proof.
  unfold id_out_ok, eqc. intros H.
  destruct (Ascii.eqb_spec c "-") as [He|_]; [rewrite He; reflexivity|].
  destruct (Ascii.eqb_spec c "_") as [He|_]; [rewrite He; reflexivity|].
  rewrite !orb_false_r in H. unfold is_lower, is_digit, is_space in *. code_cases.
Qed.

Lemma id_out_not_upper c : id_out_ok c = true -> negb (is_upper c) = true.
Proof.
  unfold id_out_ok, eqc. intros H.
  destruct (Ascii.eqb_spec c "-") as [He|_]; [rewrite He; reflexivity|].
  destruct (Ascii.eqb_spec c "_") as [He|_]; [rewrite He; reflexivity|].
  rewrite !orb_false_r in H. unfold is_lower, is_digit, is_upper in *. code_cases.
Qed.

Lemma id_out_char_ok c : id_out_ok c = true -> id_char_ok c = true.
Proof.
  unfold id_out_ok, id_char_ok. destruct (is_lower c), (is_upper c), (is_digit c),
    (eqc c "-"), (eqc c "_"); cbn; congruence.
Qed.

Lemma digit_id_out c : is_digit c = true -> id_out_ok c = true.
Proof. unfold id_out_ok. intros ->. rewrite orb_true_r. reflexivity. Qed.

Lemma single_dashes_none s : forall b,
  all_chars (fun c => negb (eqc c "-")) s = true -> single_dashes s b = true.
Proof.
  induction s as [|c s IH]; intros b; [reflexivity|]. cbn.
  intros [Hc Hs]%andb_true_iff. apply negb_true_iff in Hc. rewrite Hc.
  exact (IH false Hs).
Qed.

Lemma src_sanitize_id_cases x i :
  src_sanitize_id x i
  = if nonempty (sanitized_core x) then sanitized_core x else "id-" +:+ i.
Proof. reflexivity. Qed.

Lemma sanitized_core_shape x :
  all_chars id_out_ok (sanitized_core x) = true
  /\ strip_dash (sanitized_core x) = sanitized_core x
  /\ collapse_dashes (sanitized_core x) false = sanitized_core x.
Proof.
  unfold sanitized_core, strip_dash. repeat split.
  - apply all_chars_strip, collapse_dashes_chars, sub_bad_runs_chars, lower_no_upper.
  - apply strip_by_idem.
  - apply collapse_dashes_fixed. rewrite strip_by_rec.
    apply single_dashes_rstrip.
    apply (single_dashes_lstrip _ false), collapse_dashes_single.
Qed.

Lemma fallback_id_shape z :
  0 <= z ->
  all_chars id_out_ok ("id-" +:+ str_of_Z z) = true
  /\ strip_dash ("id-" +:+ str_of_Z z) = "id-" +:+ str_of_Z z
  /\ collapse_dashes ("id-" +:+ str_of_Z z) false = "id-" +:+ str_of_Z z.
Proof.
  intros Hz. destruct (str_of_Z_digits z Hz) as [Hd Hn].
  set (ds := str_of_Z z) in *.
  assert (Hnd : all_chars (fun c => negb (eqc c "-")) ds = true)
    by exact (all_chars_impl _ _ ds digit_not_dash Hd).
  assert (Hnd' : all_chars (fun c => negb (eqc "-" c)) ds = true).
  { eapply all_chars_impl; [|exact Hnd]. intros c Hc. cbv beta in *.
    rewrite (eqc_sym "-" c). exact Hc. }
  repeat split.
  - rewrite all_chars_app, (all_chars_impl _ _ ds digit_id_out Hd). reflexivity.
  - unfold strip_dash. rewrite strip_by_rec.
    change (lstrip_by (eqc "-") ("id-" +:+ ds)) with ("id-" +:+ ds).
    rewrite rstrip_rec_app; rewrite (rstrip_rec_none _ ds Hnd'); [reflexivity|].
    intros ->. discriminate Hn.
  - apply collapse_dashes_fixed.
    change (single_dashes ("id-" +:+ ds) false) with (single_dashes ds true).
    apply single_dashes_none, Hnd.
Qed.

(** An id of that shape is what the sanitizer returns for it. *)
Lemma src_sanitize_id_fixed y j :
  nonempty y = true ->
  all_chars id_out_ok y = true ->
  strip_dash y = y ->
  collapse_dashes y false = y ->
  src_sanitize_id y j = y.
Proof.
  intros Hn Hok Hs Hc. rewrite src_sanitize_id_cases. unfold sanitized_core, strip.
  rewrite (strip_by_none is_space y)
    by exact (all_chars_impl _ _ y id_out_not_space Hok).
  rewrite (lower_fixed y) by exact (all_chars_impl _ _ y id_out_not_upper Hok).
  rewrite (sub_bad_runs_ok y false)
    by exact (all_chars_impl _ _ y id_out_char_ok Hok).
  rewrite Hc, Hs, Hn. reflexivity.
Qed.

Lemma sanitize_result_shape (x : string) (z : Z) :
  0 <= z ->
  nonempty (src_sanitize_id x (str_of_Z z)) = true
  /\ all_chars id_out_ok (src_sanitize_id x (str_of_Z z)) = true
  /\ strip_dash (src_sanitize_id x (str_of_Z z)) = src_sanitize_id x (str_of_Z z)
  /\ collapse_dashes (src_sanitize_id x (str_of_Z z)) false
     = src_sanitize_id x (str_of_Z z).
Proof.
  intros Hz. rewrite src_sanitize_id_cases.
  destruct (nonempty (sanitized_core x)) eqn:Hn.
  - split; [exact Hn | apply sanitized_core_shape].
  - split; [reflexivity | apply fallback_id_shape, Hz].
Qed.

(** X4.  With a non-negative fallback index, the in-source [_sanitize_id]
    returns a non-empty text made of lower-case letters, digits, [-] and
    [_] only, that neither starts nor ends with a dash and holds no two
    dashes in a row. *)
Theorem sanitized_id_shape (x : string) (z : Z) :
  0 <= z ->
  let y := src_sanitize_id x (str_of_Z z) in
  nonempty y = true
  /\ all_chars id_out_ok y = true
  /\ strip_dash y = y
  /\ collapse_dashes y false = y.
Proof. intros Hz. exact (sanitize_result_shape x z Hz). Qed.

Lemma sanitized_id_shape_witness :
  0 <= 3
  /\ src_sanitize_id "  Hello,  World!! " (str_of_Z 3) = "hello-world"
  /\ src_sanitize_id "?!" (str_of_Z 3) = "id-3"
  /\ all_chars id_out_ok (src_sanitize_id "?!" (str_of_Z 3)) = true.
Proof.
  assert (H : 0 <= 3) by lia.
  destruct (sanitized_id_shape "?!" 3 H) as (_ & Hok & _).
  split; [exact H|]. split; [reflexivity|]. split; [reflexivity | exact Hok].
Defined.

(** X5.  Sanitizing an id twice gives what sanitizing it once gives,
    whatever the second fallback index. *)
Theorem sanitize_id_idempotent (x j : string) (z : Z) :
  0 <= z ->
  src_sanitize_id (src_sanitize_id x (str_of_Z z)) j
  = src_sanitize_id x (str_of_Z z).
Proof.
  intros Hz. destruct (sanitize_result_shape x z Hz) as (Hn & Hok & Hs & Hc).
  apply src_sanitize_id_fixed; assumption.
Qed.

Lemma sanitize_id_idempotent_witness :
  0 <= 1
  /\ src_sanitize_id (src_sanitize_id "Table 1: Q&A" (str_of_Z 1)) "9"
     = src_sanitize_id "Table 1: Q&A" (str_of_Z 1)
  /\ src_sanitize_id "Table 1: Q&A" (str_of_Z 1) = "table-1-q-a".
Proof.
  assert (H : 0 <= 1) by lia.
  split; [exact H|]. split; [exact (sanitize_id_idempotent _ "9" 1 H) | reflexivity].
Defined.

(** *** [_normalize_id_token] *)

Lemma map_chars_length f s : String.length (map_chars f s) = String.length s.
Proof. induction s as [|c s IH]; cbn; [|rewrite IH]; reflexivity. Qed.

Lemma lstrip_by_length p s : (String.length (lstrip_by p s) <= String.length s)%nat.
Proof.
  induction s as [|c s IH]; [cbn; lia|]. cbn [lstrip_by].
  destruct (p c); cbn in *; lia.
Qed.

Lemma rstrip_rec_length p s : (String.length (rstrip_rec p s) <= String.length s)%nat.
Proof.
  induction s as [|c s IH]; [cbn; lia|]. cbn [rstrip_rec].
  destruct (rstrip_rec p s); [destruct (p c)|]; cbn in *; lia.
Qed.

Lemma token_map_ok s :
  all_chars token_char_ok
    (map_chars (fun c => if token_char_ok c then c else "-"%char) s) = true.
Proof.
  induction s as [|c s IH]; [reflexivity|]. cbn [map_chars all_chars].
  rewrite IH, andb_true_r. destruct (token_char_ok c) eqn:Hc; [exact Hc | reflexivity].
Qed.

Lemma token_map_fixed s :
  all_chars token_char_ok s = true ->
  map_chars (fun c => if token_char_ok c then c else "-"%char) s = s.
Proof.
  induction s as [|c s IH]; [reflexivity|]. cbn.
  intros [Hc Hs]%andb_true_iff. rewrite Hc, (IH Hs). reflexivity.
Qed.

(** X6.  [_normalize_id_token] never returns an empty text.  When some
    character survives the stripping, the result holds only letters, digits
    and [_ - : .], has no dash at either end, is no longer than the token,
    and normalizing it again changes nothing. *)
Theorem normalize_id_token_shape (token fb fb' : string) :
  nonempty (_normalize_id_token token fb) = true
  /\ (nonempty (token_core token) = true ->
      let t := _normalize_id_token token fb in
      all_chars token_char_ok t = true
      /\ strip_dash t = t
      /\ (String.length t <= String.length token)%nat
      /\ _normalize_id_token t fb' = t).
Proof.
  unfold _normalize_id_token.
  destruct (nonempty (token_core token)) eqn:Hn; [|split; [reflexivity | discriminate]].
  split; [exact Hn|]. intros _. cbv zeta.
  assert (Hok : all_chars token_char_ok (token_core token) = true)
    by (apply all_chars_strip, token_map_ok).
  assert (Hs : strip_dash (token_core token) = token_core token)
    by apply strip_by_idem.
  repeat split; [exact Hok | exact Hs | |].
  - unfold token_core, strip_dash. rewrite strip_by_rec.
    etransitivity; [apply rstrip_rec_length|].
    etransitivity; [apply lstrip_by_length|].
    rewrite map_chars_length. lia.
  - change (token_core (token_core token))
      with (strip_dash (map_chars (fun c => if token_char_ok c then c else "-"%char)
                          (token_core token))).
    rewrite (token_map_fixed _ Hok), Hs, Hn. reflexivity.
Qed.

End IdFacts.

(** ** Titles, cells and the row loop *)

Module RenderFacts.
Import Text Core Envs Helpers SanitizeFacts EmptyInputClaims EscapeFacts
  StripFacts IdFacts RowLoop AtomicFacts FragmentFacts.

Lemma str_take_length n : forall s,
  (n <= String.length s)%nat -> String.length (str_take n s) = n.
Proof.
  induction n as [|n IH]; intros s Hs; [reflexivity|].
  destruct s as [|c s]; [cbn in Hs; lia|]. cbn in *. rewrite IH; lia.
Qed.

(** X7.  The display title is the title text when that has at most 120
    characters; otherwise it is its first 117 characters followed by three
    dots, 120 characters in all.  The title id is the sanitized display
    title. *)
Theorem display_title_is_bounded (E : Env) idx cols sample df :
  let r := _derive_titles E idx cols sample df in
  let title_text := r.1.1.1 in
  let display_title := r.1.1.2 in
  (str_len display_title <= 120)%nat
  /\ ((str_len title_text <= 120)%nat -> display_title = title_text)
  /\ ((120 < str_len title_text)%nat ->
      display_title = str_take 117 title_text +:+ "..."
      /\ str_len display_title = 120%nat)
  /\ r.1.2 = _sanitize_id E display_title (str_of_Z idx).
Proof.
  unfold _derive_titles. cbv zeta.
  match goal with |- context [strip (collapse_ws ?t)] =>
    set (tt := strip (collapse_ws t)) end.
  cbn [fst snd].
  assert (Hlen : (120 < str_len tt)%nat ->
                 str_len (str_take 117 tt +:+ "...") = 120%nat).
  { intros H. unfold str_len in *. rewrite str_len_app, str_take_length by lia.
    reflexivity. }
  destruct (Nat.leb_spec (str_len tt) 120) as [Hle|Hgt].
  - split; [exact Hle|]. split; [reflexivity|]. split; [lia | reflexivity].
  - split; [rewrite (Hlen Hgt); lia|]. split; [lia|].
    split; [|reflexivity]. intros _. split; [reflexivity | exact (Hlen Hgt)].
Qed.

Lemma collapse_ws_nospace s : forall b,
  all_chars (fun c => negb (is_space c)) s = true -> collapse_ws_from s b = s.
Proof.
  induction s as [|c s IH]; intros b; [reflexivity|]. cbn.
  intros [Hc Hs]%andb_true_iff. apply negb_true_iff in Hc.
  rewrite Hc, (IH false Hs). reflexivity.
Qed.

Lemma table_n_title z :
  0 <= z -> strip (collapse_ws ("Table " +:+ str_of_Z z)) = "Table " +:+ str_of_Z z.
Proof.
  intros Hz. destruct (str_of_Z_digits z Hz) as [Hd Hn].
  set (ds := str_of_Z z) in *.
  assert (Hns : all_chars (fun c => negb (is_space c)) ds = true)
    by exact (all_chars_impl _ _ ds digit_not_space Hd).
  assert (Hc : collapse_ws ("Table " +:+ ds) = "Table " +:+ ds).
  { unfold collapse_ws.
    change (collapse_ws_from ("Table " +:+ ds) false)
      with ("Table " +:+ collapse_ws_from ds true).
    rewrite (collapse_ws_nospace ds true Hns). reflexivity. }
  rewrite Hc. unfold strip. rewrite strip_by_rec.
  change (lstrip_by is_space ("Table " +:+ ds)) with ("Table " +:+ ds).
  rewrite rstrip_rec_app; rewrite (rstrip_rec_none is_space ds Hns); [reflexivity|].
  intros ->. discriminate Hn.
Qed.

(** X8.  Where the title text comes from: an explicit title that is not
    blank wins over everything else; without a title, a name that is not
    blank wins over the rows and the columns; and a table with neither, no
    sampled row and no usable first column is titled ["Table <idx>"]. *)
Theorem title_precedence (E : Env) idx cols sample df :
  (forall s, t_title df = Some s -> nonempty (strip s) = true ->
     (_derive_titles E idx cols sample df).1.1.1 = strip (collapse_ws (strip s)))
  /\ (forall n, t_title df = None -> t_name df = Some n ->
        nonempty (strip n) = true ->
        (_derive_titles E idx cols sample df).1.1.1
        = strip (collapse_ws (strip n)))
  /\ (t_title df = None -> t_name df = None -> sample = [] ->
      match cols with [] => True | c :: _ => strip c = "" end ->
      0 <= idx ->
      (_derive_titles E idx cols sample df).1.1.1 = "Table " +:+ str_of_Z idx).
Proof.
  assert (Hstrip_ne : forall s, nonempty (strip s) = true -> nonempty s = true).
  { intros s. destruct s; [discriminate | reflexivity]. }
  split; [|split].
  - intros s Ht Hs. unfold _derive_titles. rewrite Ht, (Hstrip_ne s Hs).
    repeat (cbn [blank negb fst snd]; rewrite ?Hs). reflexivity.
  - intros n Ht Hn Hs. unfold _derive_titles. rewrite Ht, Hn, (Hstrip_ne n Hs).
    repeat (cbn [blank negb fst snd]; rewrite ?Hs). reflexivity.
  - intros Ht Hn -> Hc Hz. unfold _derive_titles. rewrite Ht, Hn. cbn [blank].
    destruct cols as [|c cols]; cbn [fst snd].
    + apply table_n_title, Hz.
    + rewrite Hc. cbn [nonempty fst snd]. apply table_n_title, Hz.
Qed.

(** *** Cells *)

Lemma render_cell_warning_shape (E : Env) flag idx tid labels r_idx fc col_i v :
  let ws := (render_cell E flag idx tid labels r_idx fc col_i v).2 in
  (length ws <= 1)%nat
  /\ Forall (fun w => w_level w = Warn /\ w_table w = Some (Some idx)
                      /\ w_row w = Some r_idx /\ w_col w = Some col_i) ws.
Proof.
  unfold render_cell.
  destruct (cell_source E _) as [src|m].
  - destruct flag.
    + destruct (render E src); cbn; split; try lia; repeat constructor.
    + cbn. split; [lia | constructor].
  - cbn. split; [lia | repeat constructor].
Qed.

Lemma render_cells_shape (E : Env) flag idx tid labels r_idx fc vals : forall col_i,
  let r := render_cells E flag idx tid labels r_idx fc col_i vals in
  length r.1 = length vals
  /\ (length r.2 <= length vals)%nat
  /\ Forall (fun w => w_level w = Warn /\ w_table w = Some (Some idx)
                      /\ w_row w = Some r_idx) r.2.
Proof.
  induction vals as [|v vals IH]; intros col_i; cbn [render_cells].
  - cbn. repeat split; [lia | constructor].
  - pose proof (render_cell_warning_shape E flag idx tid labels r_idx fc col_i v)
      as [Hl Hf].
    destruct (render_cell E flag idx tid labels r_idx fc col_i v) as [td ws].
    destruct (IH (S col_i)) as (H1 & H2 & H3).
    destruct (render_cells E flag idx tid labels r_idx fc (S col_i) vals)
      as [tds ws'].
    cbn [fst snd length] in *. rewrite length_app. repeat split; [lia | lia |].
    apply Forall_app; split; [|exact H3].
    eapply Forall_impl; [exact Hf|]. cbn. tauto.
Qed.

Lemma render_row_shape (E : Env) flag idx tid labels r_idx (r : row) :
  exists cells,
    (render_row E flag idx tid labels r_idx r).1
    = "<tr>" +:+ concat_str cells +:+ "</tr>"
    /\ length cells = length r
    /\ (length (render_row E flag idx tid labels r_idx r).2 <= length r)%nat
    /\ Forall (fun w => w_level w = Warn /\ w_table w = Some (Some idx)
                        /\ w_row w = Some r_idx)
         (render_row E flag idx tid labels r_idx r).2.
Proof.
  unfold render_row.
  match goal with |- context [render_cells E flag idx tid labels r_idx ?fc 0%nat r] =>
    pose proof (render_cells_shape E flag idx tid labels r_idx fc r 0%nat) as H;
    destruct (render_cells E flag idx tid labels r_idx fc 0%nat r) as [cs ws]
  end.
  cbn [fst snd] in *. exists cs. destruct H as (H1 & H2 & H3). auto.
Qed.


(** *** The row loop *)

Section Loop.
Variable E : Env.
Variables (flag : bool) (cfg : RenderConfig) (idx : Z) (tid : string)
  (labels : list string) (fail : option string).

Lemma row_loop_prefix_of rows : forall r0,
  let res := row_loop E flag cfg idx tid labels fail r0 rows in
  exists n,
    (n <= length rows)%nat
    /\ l_rows res = rendered_rows E flag idx tid labels r0 (take n rows)
    /\ (n = 0%nat \/ over_limit cfg (r0 + n) = false)
    /\ (l_r_idx res = (r0 + n)%nat \/ l_r_idx res = S (r0 + n)).
Proof.
  induction rows as [|r rows IH]; intros r0; cbn [row_loop].
  - exists 0%nat. destruct fail; cbn; rewrite Nat.add_0_r; auto.
  - destruct (cancel_observed cfg idx r0).
    { exists 0%nat. cbn. rewrite Nat.add_0_r. repeat split; auto; lia. }
    destruct (over_limit cfg (S r0)) eqn:Hl.
    { exists 0%nat. cbn. rewrite Nat.add_0_r. repeat split; auto; lia. }
    destruct (render_row E flag idx tid labels (S r0) r) as [tr ws] eqn:Hr.
    destruct (IH (S r0)) as (n & Hn & Hrows & Hlim & Hidx).
    exists (S n). cbn [l_rows l_r_idx length take rendered_rows].
    rewrite Hr, Hrows. cbn [fst].
    replace (r0 + S n)%nat with (S r0 + n)%nat by lia.
    repeat split; [lia | |exact Hidx].
    right. destruct Hlim as [->|Hlim]; [rewrite Nat.add_0_r; exact Hl | exact Hlim].
Qed.

End Loop.

(** X10.  Whatever the stream, the flag and the limit, the rows written are
    the renderings of a prefix of the stream, in order; under a limit
    [R > 0] they are at most [R]; and the counter equals the number of rows
    written or exceeds it by one. *)
Theorem rows_written_are_a_prefix (E : Env) flag cfg idx (st : frag_setup) :
  let res := setup_loop E flag cfg idx st in
  exists n,
    (n <= length (s_rows (fs_stream st)))%nat
    /\ l_rows res
       = rendered_rows E flag idx (fs_table_id st) (fs_labels st) 0
           (take n (s_rows (fs_stream st)))
    /\ length (l_rows res) = n
    /\ (0 < table_row_limit cfg -> Z.of_nat n <= table_row_limit cfg)
    /\ (l_r_idx res = n \/ l_r_idx res = S n).
Proof.
  cbv zeta. unfold setup_loop.
  destruct (row_loop_prefix_of E flag cfg idx (fs_table_id st) (fs_labels st)
              (s_fail (fs_stream st)) (s_rows (fs_stream st)) 0%nat)
    as (n & Hn & Hrows & Hlim & Hidx).
  exists n. cbn [Nat.add] in *. repeat split; try assumption.
  - rewrite Hrows, rendered_rows_length, length_take. lia.
  - intros HR. destruct Hlim as [->|Hlim]; [lia|].
    unfold over_limit in Hlim.
    destruct (Z.eqb_spec (table_row_limit cfg) 0); [lia|]. cbn in Hlim.
    apply Z.ltb_ge in Hlim. exact Hlim.
Qed.

Lemma rows_written_are_a_prefix_witness :
  0 < table_row_limit limit_two
  /\ exists n,
       length (l_rows (setup_loop spec_env true limit_two 1 abc_setup)) = n
       /\ Z.of_nat n <= table_row_limit limit_two.
Proof.
  assert (H : 0 < table_row_limit limit_two) by reflexivity.
  split; [exact H|].
  destruct (rows_written_are_a_prefix spec_env true limit_two 1 abc_setup)
    as (n & _ & _ & Hl & Hb & _).
  exists n. split; [exact Hl | exact (Hb H)].
Defined.



End RenderFacts.

(** ** The header loop and the text of a fragment *)

Module HeaderFacts.
Import Text Core Envs Helpers RowLoop AtomicFacts FragmentFacts HeaderClaims
  EmptyInputClaims RenderFacts.

Lemma thead_cells_short idx tid types : forall cols i,
  (i <= length types)%nat -> (length types < i + length cols)%nat ->
  (thead_cells idx tid types i cols).2 = Raise "list index out of range".
Proof.
  induction cols as [|[col lab] cols IH]; intros i Hi Hlt; cbn in *; [lia|].
  destruct (types !! i) as [ct|] eqn:Hct; [|reflexivity].
  apply lookup_lt_Some in Hct.
  specialize (IH (S i) ltac:(lia) ltac:(lia)).
  destruct (thead_cells idx tid types (S i) cols) as [cells res]. exact IH.
Qed.

Lemma thead_cells_long idx tid types : forall cols i,
  (i + length cols <= length types)%nat ->
  exists cells,
    thead_cells idx tid types i cols = (cells, Ok tt)
    /\ Forall2 (fun c ct => th_class c = "col-" +:+ ct) cells
         (take (length cols) (drop i types)).
Proof.
  induction cols as [|[col lab] cols IH]; intros i Hle; cbn in *.
  - exists []. split; [reflexivity | constructor].
  - destruct (types !! i) as [ct|] eqn:Hct;
      [|apply lookup_ge_None in Hct; lia].
    destruct (IH (S i) ltac:(lia)) as (cells & Hc & Hall).
    rewrite Hc. eexists. split; [reflexivity|].
    rewrite (drop_S _ _ _ Hct). cbn. constructor; [reflexivity | exact Hall].
Qed.

Lemma thead_succeeds_iff (E : Env) idx df st :
  frag_setup_of E idx df = Ok st ->
  (exists cells, setup_thead idx st = (cells, Ok tt))
  <-> (length (fs_cols st) <= length (fs_col_types st))%nat.
Proof.
  intros Hst. destruct (frag_setup_fields E idx df st Hst) as [_ Hlen].
  assert (Hz : length (zip (fs_cols st) (fs_headers_html st))
               = length (fs_cols st)).
  { rewrite length_zip_with. lia. }
  unfold setup_thead. split.
  - intros [cells Hc].
    destruct (Nat.le_gt_cases (length (fs_cols st)) (length (fs_col_types st)))
      as [Hle|Hgt]; [exact Hle|].
    pose proof (thead_cells_short idx (fs_table_id st) (fs_col_types st)
                  (zip (fs_cols st) (fs_headers_html st)) 0%nat
                  ltac:(lia) ltac:(lia)) as Hr.
    rewrite Hc in Hr. discriminate Hr.
  - intros Hle.
    destruct (thead_cells_long idx (fs_table_id st) (fs_col_types st)
                (zip (fs_cols st) (fs_headers_html st)) 0%nat ltac:(lia))
      as (cells & Hc & _).
    exists cells. exact Hc.
Qed.

(** X12.  The header of a fragment is written in full exactly when the
    column-type detector answered at least one type per column; with fewer
    types the loop over the columns raises IndexError. *)
Theorem header_needs_a_type_per_column (E : Env) idx df st :
  frag_setup_of E idx df = Ok st ->
  ((exists cells, setup_thead idx st = (cells, Ok tt))
   <-> (length (fs_cols st) <= length (fs_col_types st))%nat)
  /\ ((length (fs_col_types st) < length (fs_cols st))%nat ->
      (setup_thead idx st).2 = Raise "list index out of range").
Proof.
  intros Hst. split; [exact (thead_succeeds_iff E idx df st Hst)|].
  intros Hlt. destruct (frag_setup_fields E idx df st Hst) as [_ Hlen].
  unfold setup_thead. apply thead_cells_short; [lia|].
  rewrite length_zip_with. lia.
Qed.

Lemma header_needs_a_type_per_column_witness :
  frag_setup_of (env_with_types []) 1 abc = Ok untyped_setup
  /\ (setup_thead 1 untyped_setup).2 = Raise "list index out of range".
Proof.
  assert (H : frag_setup_of (env_with_types []) 1 abc = Ok untyped_setup)
    by (vm_compute; reflexivity).
  split; [exact H|].
  apply (header_needs_a_type_per_column (env_with_types []) 1 abc untyped_setup H).
  vm_compute. lia.
Defined.

(** X13.  When the header loop raises, the renderer still returns its
    tuple: no data row was rendered, the only warning is one error-level
    "fragment write failed", and the fragment file keeps what it held
    before, which is what the returned line count is read from. *)
Theorem failed_header_leaves_no_fragment (E : Env) fs idx df dir cfg flag st :
  frag_setup_of E idx df = Ok st ->
  (length (fs_col_types st) < length (fs_cols st))%nat ->
  _atomic_stream_write E = None ->
  exists fs' m,
    _render_table_fragment_to_file E fs idx df dir cfg flag
    = (fs', Ok (idx, frag_path dir idx, final_count_of fs (frag_path dir idx),
                [warn_fragment_write m idx]))
    /\ fs' !! frag_path dir idx = fs !! frag_path dir idx
    /\ (open_error E (frag_path dir idx +:+ ".tmp") = None ->
        m = "list index out of range").
Proof.
  intros Hst Hlt Haw.
  destruct (frag_setup_fields E idx df st Hst) as [_ Hlen].
  assert (Hth : (setup_thead idx st).2 = Raise "list index out of range").
  { unfold setup_thead. apply thead_cells_short; [lia|].
    rewrite length_zip_with. lia. }
  unfold _render_table_fragment_to_file. rewrite Hst, Haw.
  unfold _default_write_atomic.
  destruct (open_error E (frag_path dir idx +:+ ".tmp")) as [e|] eqn:Ho.
  - exists fs, e. cbn. split; [reflexivity|]. split; [reflexivity | discriminate].
  - unfold frag_writer.
    destruct (setup_thead idx st) as [cells res]. cbn in Hth. subst res.
    eexists _, _. cbn. unfold final_count_of.
    rewrite (lookup_insert_ne _ _ _ _ (tmp_ne (frag_path dir idx))).
    split; [reflexivity|].
    split; [apply lookup_insert_ne, tmp_ne | intros _; reflexivity].
Qed.

Lemma failed_header_leaves_no_fragment_witness :
  frag_setup_of (env_with_types []) 1 abc = Ok untyped_setup
  /\ (length (fs_col_types untyped_setup) < length (fs_cols untyped_setup))%nat
  /\ _atomic_stream_write (env_with_types []) = None
  /\ exists fs',
       _render_table_fragment_to_file (env_with_types []) ∅ 1 abc frag_dir
         default_config true
       = (fs', Ok (1, frag_path frag_dir 1, 0%nat,
                   [warn_fragment_write "list index out of range" 1]))
       /\ fs' !! frag_path frag_dir 1 = None.
Proof.
  assert (H1 : frag_setup_of (env_with_types []) 1 abc = Ok untyped_setup)
    by (vm_compute; reflexivity).
  assert (H2 : (length (fs_col_types untyped_setup)
                < length (fs_cols untyped_setup))%nat) by (vm_compute; lia).
  assert (H3 : _atomic_stream_write (env_with_types []) = None) by reflexivity.
  repeat (split; [assumption|]).
  destruct (failed_header_leaves_no_fragment (env_with_types []) ∅ 1 abc frag_dir
              default_config true untyped_setup H1 H2 H3)
    as (fs' & m & Hret & Hfile & Hm).
  exists fs'. rewrite (Hm eq_refl) in Hret. split; [exact Hret | exact Hfile].
Defined.

(** X14.  With the in-source column-type detector, which answers "text"
    for every column, the setup and the header of a fragment never fail,
    there is one header cell per column of the table and each has the class
    [col-text]. *)
Theorem in_source_detector_never_fails (E : Env) idx df :
  (forall sample cols,
     _detect_column_types E sample cols = Ok (replicate (length cols) "text")) ->
  exists st cells,
    frag_setup_of E idx df = Ok st
    /\ setup_thead idx st = (cells, Ok tt)
    /\ length cells = length (t_columns df)
    /\ Forall (fun c => th_class c = "col-text") cells.
Proof.
  intros Hd.
  assert (Hst : exists st, frag_setup_of E idx df = Ok st
                  /\ fs_cols st = t_columns df
                  /\ fs_col_types st = replicate (length (t_columns df)) "text").
  { unfold frag_setup_of.
    assert (Hc : (_prepare_table_stream E df).1.1 = t_columns df).
    { unfold _prepare_table_stream.
      destruct (_take_and_stream E (t_rows df) 100) as [[buf it2]|m];
        [reflexivity|].
      destruct (s_fail (t_rows df)); reflexivity. }
    destruct (_prepare_table_stream E df) as [[cols sample] it].
    cbn in Hc. subst cols. rewrite Hd.
    destruct (_derive_titles E idx (t_columns df) sample df) as [[[t d] ti] th].
    eexists. split; [reflexivity|]. split; reflexivity. }
  destruct Hst as (st & Hst & Hcols & Htypes).
  destruct (frag_setup_fields E idx df st Hst) as [_ Hlen].
  assert (Hz : length (zip (fs_cols st) (fs_headers_html st))
               = length (t_columns df)).
  { rewrite length_zip_with, <- Hcols. lia. }
  destruct (thead_cells_long idx (fs_table_id st) (fs_col_types st)
              (zip (fs_cols st) (fs_headers_html st)) 0%nat) as (cells & Hc & Hall).
  { rewrite Htypes, length_replicate, Hz. lia. }
  exists st, cells. split; [exact Hst|]. split; [exact Hc|].
  rewrite Htypes, Hz, drop_0 in Hall.
  rewrite take_replicate, Nat.min_id in Hall.
  split.
  - apply Forall2_length in Hall. rewrite length_replicate in Hall. exact Hall.
  - clear -Hall. remember (replicate _ _) as l eqn:Hl.
    assert (Ht : Forall (fun ct => ct = "text") l)
      by (subst l; apply Forall_replicate; reflexivity).
    clear Hl. induction Hall as [|c ct cells l Hcl _ IH]; constructor.
    + apply Forall_inv in Ht. subst ct. exact Hcl.
    + apply IH. eapply Forall_inv_tail, Ht.
Qed.

Lemma in_source_detector_never_fails_witness :
  exists st cells,
    frag_setup_of src_env 1 abc = Ok st
    /\ setup_thead 1 st = (cells, Ok tt)
    /\ length cells = 1%nat
    /\ Forall (fun c => th_class c = "col-text") cells.
Proof.
  apply (in_source_detector_never_fails src_env 1 abc).
  intros sample cols. reflexivity.
Defined.

(** X15.  With the in-source [_take_and_stream], which hands back an empty
    sample and an empty iterator, a fragment holds no data row whatever the
    table: the loop ends at once with no warning and the file written is
    the fragment with an empty body and the footer "Rows: 0". *)
Theorem in_source_adapter_drops_every_row (E : Env) fs idx df dir cfg flag
    st cells :
  _take_and_stream E = src_take_and_stream ->
  frag_setup_of E idx df = Ok st ->
  setup_thead idx st = (cells, Ok tt) ->
  fragment_write_ok E dir idx ->
  setup_loop E flag cfg idx st = mkLoop 0 [] []
  /\ exists fs' n,
       _render_table_fragment_to_file E fs idx df dir cfg flag
       = (fs', Ok (idx, frag_path dir idx, n, []))
       /\ fs' !! frag_path dir idx = Some (fragment_text idx st cells [] 0).
Proof.
  intros Ha Hst Hth Hw.
  assert (Hs : fs_stream st = mkStream [] None).
  { revert Hst. unfold frag_setup_of, _prepare_table_stream. rewrite Ha. cbn.
    destruct (_detect_column_types E [] (t_columns df)) as [cts|m];
      [|discriminate].
    destruct (_derive_titles E idx (t_columns df) [] df) as [[[t d] ti] th].
    intros [= <-]. reflexivity. }
  assert (Hl : setup_loop E flag cfg idx st = mkLoop 0 [] []).
  { unfold setup_loop. rewrite Hs. reflexivity. }
  split; [exact Hl|].
  destruct (fragment_written E fs idx df dir cfg flag st cells Hst Hth Hw)
    as (fs' & Hret & Hfile).
  rewrite Hl in Hret, Hfile. cbn [l_rows l_r_idx l_warnings] in Hret, Hfile.
  eexists fs', _. split; [exact Hret | exact Hfile].
Qed.

Lemma in_source_adapter_drops_every_row_witness :
  _take_and_stream src_env = src_take_and_stream
  /\ frag_setup_of src_env 1 abc = Ok stub_setup
  /\ setup_thead 1 stub_setup = (failing_cells, Ok tt)
  /\ fragment_write_ok src_env frag_dir 1
  /\ setup_loop src_env true default_config 1 stub_setup = mkLoop 0 [] [].
Proof.
  assert (H1 : _take_and_stream src_env = src_take_and_stream) by reflexivity.
  assert (H2 : frag_setup_of src_env 1 abc = Ok stub_setup)
    by (vm_compute; reflexivity).
  assert (H3 : setup_thead 1 stub_setup = (failing_cells, Ok tt))
    by (vm_compute; reflexivity).
  assert (H4 : fragment_write_ok src_env frag_dir 1)
    by (repeat split; reflexivity).
  repeat (split; [assumption|]).
  exact (proj1 (in_source_adapter_drops_every_row src_env ∅ 1 abc frag_dir
                  default_config true stub_setup failing_cells H1 H2 H3 H4)).
Defined.

(** *** What the checks of the module find in a fragment *)

Lemma prefix_append c : forall p r,
  String.prefix p c = true -> String.prefix p (c +:+ r) = true.
Proof.
  induction c as [|b c IH]; intros p r H.
  - destruct p; [|discriminate H]. destruct r; reflexivity.
  - change (String b c +:+ r) with (String b (c +:+ r)).
    destruct p as [|a p]; [reflexivity|]. cbn in *.
    destruct (Ascii.ascii_dec a b); [apply IH, H | discriminate H].
Qed.

Lemma contains_prefix p s : String.prefix p s = true -> contains p s = true.
Proof. intros H. destruct s; cbn [contains]; rewrite H; reflexivity. Qed.

Lemma contains_app_r p a : forall b,
  contains p b = true -> contains p (a +:+ b) = true.
Proof.
  induction a as [|c a IH]; intros b H; [exact H|].
  change (String c a +:+ b) with (String c (a +:+ b)).
  cbn [contains]. rewrite (IH b H). apply orb_true_r.
Qed.

Lemma contains_app_l p a : forall b,
  contains p a = true -> contains p (a +:+ b) = true.
Proof.
  induction a as [|c a IH]; intros b H.
  - cbn [contains] in H. rewrite orb_false_r in H.
    apply contains_prefix, (prefix_append "" p b), H.
  - change (String c a +:+ b) with (String c (a +:+ b)).
    cbn [contains] in *. apply orb_true_iff in H. apply orb_true_iff.
    destruct H as [H|H].
    + left. apply (prefix_append (String c a) p b), H.
    + right. apply IH, H.
Qed.

Lemma contains_concat p c l :
  In c l -> contains p c = true -> contains p (concat_str l) = true.
Proof.
  intros Hin Hp. induction l as [|s l IH]; [destruct Hin|].
  cbn [concat_str]. destruct Hin as [->|Hin].
  - apply contains_app_l, Hp.
  - apply contains_app_r, IH, Hin.
Qed.

Lemma map_chars_app f a b :
  map_chars f (a +:+ b) = map_chars f a +:+ map_chars f b.
Proof.
  induction a as [|c a IH]; [reflexivity|].
  change (String c a +:+ b) with (String c (a +:+ b)).
  cbn [map_chars]. rewrite IH. reflexivity.
Qed.

Lemma lower_concat l : lower (concat_str l) = concat_str (map lower l).
Proof.
  induction l as [|s l IH]; [reflexivity|].
  cbn [concat_str map]. unfold lower in *. rewrite map_chars_app, IH.
  reflexivity.
Qed.

Lemma table_open_chunk idx tid title_id title_html display :
  exists c,
    In c (frag_prologue idx tid title_id title_html display)
    /\ contains "<table" (lower c) = true.
Proof.
  unfold frag_prologue.
  destruct (nonempty (_safe_caption display)) eqn:Hc.
  - exists ("<table><caption>" +:+ _safe_caption display +:+ "</caption><thead><tr>").
    split; [|reflexivity]. do 12 right. left. reflexivity.
  - exists "<table><thead><tr>". split; [|reflexivity]. do 12 right. left.
    reflexivity.
Qed.

(** X16.  Every fragment text the renderer can write passes the module's
    own check [_looks_like_table_fragment]: it is not empty and holds a
    [<table] and a [<tbody], whatever the titles, the header cells and the
    rows. *)
Theorem fragment_looks_like_a_table idx st cells rows r_idx :
  _looks_like_table_fragment (fragment_text idx st cells rows r_idx) = true.
Proof.
  unfold _looks_like_table_fragment, fragment_text.
  apply andb_true_iff. split; [reflexivity|].
  rewrite lower_concat. apply andb_true_iff. split.
  - destruct (table_open_chunk idx (fs_table_id st) (fs_title_id st)
                (fs_title_html st) (fs_display_title st)) as (c & Hin & Hp).
    apply (contains_concat _ (lower c)); [|exact Hp].
    apply in_map, in_or_app. left. exact Hin.
  - apply (contains_concat _ (lower "</tr></thead><tbody>")).
    + apply in_map, in_or_app. right. apply in_or_app. right. left. reflexivity.
    + reflexivity.
Qed.

Lemma search_app_r a : forall b,
  search_tbody_tr b = true -> search_tbody_tr (a +:+ b) = true.
Proof.
  induction a as [|c a IH]; intros b H; [exact H|].
  change (String c a +:+ b) with (String c (a +:+ b)).
  cbn [search_tbody_tr]. rewrite (IH b H). apply orb_true_r.
Qed.

Lemma concat_str_app l1 l2 :
  concat_str (l1 ++ l2) = concat_str l1 +:+ concat_str l2.
Proof.
  induction l1 as [|s l1 IH]; [reflexivity|].
  cbn [app concat_str]. rewrite IH.
  symmetry. apply append_assoc3.
Qed.

Lemma fragment_rows_found idx st cells (cs : list string) rows r_idx :
  _frag_contains_rows
    (fragment_text idx st cells (("<tr>" +:+ concat_str cs +:+ "</tr>") :: rows)
       r_idx) = true.
Proof.
  unfold _frag_contains_rows, fragment_text.
  apply andb_true_iff. split; [reflexivity|].
  rewrite concat_str_app. apply search_app_r.
  rewrite concat_str_app. apply search_app_r.
  reflexivity.
Qed.

(** X17.  A fragment in which the renderer wrote at least one data row is
    recognised as holding rows: [_frag_contains_rows] is true on the file
    written, so a fragment map that holds it never sends the orchestrator
    to the inline fallback. *)
Theorem written_rows_prevent_the_fallback (E : Env) fs idx df dir cfg flag
    st cells :
  frag_setup_of E idx df = Ok st ->
  setup_thead idx st = (cells, Ok tt) ->
  fragment_write_ok E dir idx ->
  l_rows (setup_loop E flag cfg idx st) <> [] ->
  exists fs' n ws text,
    _render_table_fragment_to_file E fs idx df dir cfg flag
    = (fs', Ok (idx, frag_path dir idx, n, ws))
    /\ fs' !! frag_path dir idx = Some text
    /\ _frag_contains_rows text = true
    /\ forall (fm : gmap Z frag_meta) ws0 k meta,
         fm !! k = Some meta -> fm_content meta = text ->
         fallback_decision fm ws0 = (false, ws0).
Proof.
  intros Hst Hth Hw Hne.
  destruct (fragment_written E fs idx df dir cfg flag st cells Hst Hth Hw)
    as (fs' & Hret & Hfile).
  destruct (row_loop_prefix_of E flag cfg idx (fs_table_id st) (fs_labels st)
              (s_fail (fs_stream st)) (s_rows (fs_stream st)) 0%nat)
    as (n & _ & Hrows & _).
  fold (setup_loop E flag cfg idx st) in Hrows.
  assert (Hfound : _frag_contains_rows
                     (fragment_text idx st cells
                        (l_rows (setup_loop E flag cfg idx st))
                        (l_r_idx (setup_loop E flag cfg idx st))) = true).
  { destruct (take n (s_rows (fs_stream st))) as [|r rest] eqn:Ht.
    - rewrite Hrows in Hne. cbn in Hne. congruence.
    - rewrite Hrows. cbn [rendered_rows].
      destruct (render_row_shape E flag idx (fs_table_id st) (fs_labels st)
                  1%nat r) as (cs & -> & _).
      apply fragment_rows_found. }
  eexists fs', _, _, _. split; [exact Hret|]. split; [exact Hfile|].
  split; [exact Hfound|].
  intros fm ws0 k meta Hk Hc. unfold fallback_decision.
  destruct (decide (fm = ∅)) as [->|_]; [rewrite lookup_empty in Hk; discriminate|].
  assert (Ha : any_with_rows fm = true).
  { unfold any_with_rows. apply existsb_exists. exists (k, meta).
    split; [|cbn; rewrite Hc; exact Hfound].
    apply list_elem_of_In, elem_of_map_to_list, Hk. }
  rewrite Ha. reflexivity.
Qed.

Lemma written_rows_prevent_the_fallback_witness :
  frag_setup_of spec_env 1 abc = Ok abc_setup
  /\ setup_thead 1 abc_setup = (abc_cells, Ok tt)
  /\ fragment_write_ok spec_env frag_dir 1
  /\ l_rows (setup_loop spec_env true default_config 1 abc_setup) <> []
  /\ exists (fs' : gmap string string) text,
       fs' !! frag_path frag_dir 1 = Some text
       /\ _frag_contains_rows text = true.
Proof.
  assert (H1 : frag_setup_of spec_env 1 abc = Ok abc_setup)
    by (vm_compute; reflexivity).
  assert (H2 : setup_thead 1 abc_setup = (abc_cells, Ok tt))
    by (vm_compute; reflexivity).
  assert (H3 : fragment_write_ok spec_env frag_dir 1)
    by (repeat split; reflexivity).
  assert (H4 : l_rows (setup_loop spec_env true default_config 1 abc_setup) <> [])
    by (vm_compute; discriminate).
  repeat (split; [assumption|]).
  destruct (written_rows_prevent_the_fallback spec_env ∅ 1 abc frag_dir
              default_config true abc_setup abc_cells H1 H2 H3 H4)
    as (fs' & n & ws & text & _ & Hfile & Hfound & _).
  exists fs', text. split; [exact Hfile | exact Hfound].
Defined.

End HeaderFacts.

(** ** Files: the atomic writer, its fallback, the index and the cleanup *)

Module FileFacts.
Import Text Core Envs Helpers AtomicFacts SanitizeFacts EmptyInputClaims.

Section Files.
Variable E : Env.

Lemma _default_write_atomic_frame {S : Type} fs path (w : writer S) s q :
  q <> path -> q <> path +:+ ".tmp" ->
  (_default_write_atomic E fs path w s).1.1 !! q = fs !! q.
Proof.
  intros Hp Ht. unfold _default_write_atomic.
  destruct (open_error E (path +:+ ".tmp")) as [e|]; [reflexivity|].
  destruct (w s) as [[chunks res] s'].
  destruct res as [[]|e]; cbn.
  - destruct (replace_error E (path +:+ ".tmp") path) as [e|]; cbn.
    + apply lookup_insert_ne. congruence.
    + rewrite lookup_insert_ne, lookup_delete_ne, lookup_insert_ne by congruence.
      reflexivity.
  - apply lookup_insert_ne. congruence.
Qed.

Lemma _default_write_atomic_done {S : Type} fs path (w : writer S) s :
  (_default_write_atomic E fs path w s).1.2 = Ok tt ->
  (_default_write_atomic E fs path w s).1.1 !! path
  = Some (concat_str (w s).1.1)
  /\ (_default_write_atomic E fs path w s).1.1 !! (path +:+ ".tmp") = None.
Proof.
  unfold _default_write_atomic.
  destruct (open_error E (path +:+ ".tmp")) as [e|]; [discriminate|].
  destruct (w s) as [[chunks res] s'].
  destruct res as [[]|e]; cbn; [|discriminate].
  destruct (replace_error E (path +:+ ".tmp") path) as [e|]; cbn; [discriminate|].
  intros _. split; [apply lookup_insert_eq|].
  rewrite lookup_insert_ne by (intros H; symmetry in H; exact (tmp_ne path H)).
  apply lookup_delete_eq.
Qed.

(** X1.  [_default_write_atomic] touches two paths only, the destination
    and its [.tmp] sibling.  When any step raises, the destination keeps
    what it held; when none does, the destination holds everything the
    writer wrote and no temporary file is left behind. *)
Theorem atomic_write_is_all_or_nothing {S : Type} fs path (w : writer S) s :
  let r := _default_write_atomic E fs path w s in
  (forall q, q <> path -> q <> path +:+ ".tmp" -> r.1.1 !! q = fs !! q)
  /\ (forall m, r.1.2 = Raise m -> r.1.1 !! path = fs !! path)
  /\ (r.1.2 = Ok tt ->
      r.1.1 !! path = Some (concat_str (w s).1.1)
      /\ r.1.1 !! (path +:+ ".tmp") = None).
Proof.
  cbv zeta. split; [|split].
  - intros q. apply _default_write_atomic_frame.
  - intros m. apply _default_write_atomic_untouched.
  - apply _default_write_atomic_done.
Qed.


(** X19.  The index document of the split path is written whenever the
    index path itself can be opened, also when the atomic write fails on
    its temporary file or on the rename; nothing but the index path and its
    [.tmp] sibling is touched. *)
Theorem index_is_written_when_it_can_be_opened fs out html :
  open_error E (index_path out) = None ->
  write_index E fs out html !! index_path out = Some html
  /\ forall q, q <> index_path out -> q <> index_path out +:+ ".tmp" ->
       write_index E fs out html !! q = fs !! q.
Proof.
  intros Ho. unfold write_index.
  pose proof (_default_write_atomic_frame fs (index_path out)
                (fun _ : unit => (([html], Ok tt), tt)) tt) as Hf.
  pose proof (_default_write_atomic_done fs (index_path out)
                (fun _ : unit => (([html], Ok tt), tt)) tt) as Hd.
  destruct (_default_write_atomic E fs (index_path out) _ tt)
    as [[fs' [[]|m]] u]; cbn [fst snd] in *.
  - destruct (Hd eq_refl) as [Hp _]. cbn [concat_str] in Hp.
    rewrite append_empty_r in Hp. split; [exact Hp|]. intros q. apply Hf.
  - rewrite Ho. split; [apply lookup_insert_eq|].
    intros q Hq Ht. rewrite lookup_insert_ne by congruence. apply Hf; assumption.
Qed.

(** X20.  The cleanup at the end of a run never creates or changes a file
    and never removes one outside the fragment directory; it removes
    nothing at all when the fragment directory is the output directory;
    and when the removal ran, nothing under the fragment directory is
    left. *)
Theorem cleanup_only_removes_fragments fs out dir :
  (forall q v, cleanup E fs out dir !! q = Some v -> fs !! q = Some v)
  /\ (forall q, String.prefix (dir +:+ "/") q = false ->
        cleanup E fs out dir !! q = fs !! q)
  /\ (dir = o_dir out -> cleanup E fs out dir = fs)
  /\ (cleanup_ran E out dir ->
      forall q, String.prefix (dir +:+ "/") q = true ->
        cleanup E fs out dir !! q = None).
Proof.
  unfold cleanup, cleanup_ran.
  destruct (String.eqb dir (o_dir out)) eqn:Heq.
  { split; [auto|]. split; [auto|]. split; [auto|].
    intros [H _]. discriminate H. }
  destruct (rmtree_fails E dir) eqn:Hrm.
  { split; [auto|]. split; [auto|]. split; [auto|].
    intros [_ H]. discriminate H. }
  split; [|split; [|split]].
  - intros q v H. apply map_lookup_filter_Some in H. tauto.
  - intros q Hq. destruct (fs !! q) as [v|] eqn:Hv.
    + apply map_lookup_filter_Some. split; [exact Hv | exact Hq].
    + apply map_lookup_filter_None. left. exact Hv.
  - intros ->. rewrite String.eqb_refl in Heq. discriminate Heq.
  - intros _ q Hq. apply map_lookup_filter_None. right.
    intros v _. cbn. rewrite Hq. discriminate.
Qed.

End Files.

Lemma index_is_written_when_it_can_be_opened_witness :
  open_error index_tmp_denied_env (index_path out_html) = None
  /\ open_error index_tmp_denied_env (index_path out_html +:+ ".tmp")
     = Some "Permission denied"
  /\ write_index index_tmp_denied_env ∅ out_html "x" !! index_path out_html
     = Some "x".
Proof.
  assert (H : open_error index_tmp_denied_env (index_path out_html) = None)
    by reflexivity.
  split; [exact H|]. split; [reflexivity|].
  exact (proj1 (index_is_written_when_it_can_be_opened index_tmp_denied_env ∅
                  out_html "x" H)).
Defined.

End FileFacts.

(** ** The orchestrator: collection, order, the inline document *)

Module OrchestratorFacts.
Import Text Core Envs Helpers PoolFacts AtomicFacts SanitizeFacts HeaderClaims
  OrchestratorClaims EmptyInputClaims SplitFacts EscapeFacts HeaderFacts
  FileFacts.

Lemma thead_cells_aria idx tid types : forall cols i,
  Forall (fun c => all_chars markup_safe (th_aria c) = true)
    (thead_cells idx tid types i cols).1.
Proof.
  induction cols as [|[col lab] cols IH]; intros i; cbn; [constructor|].
  destruct (types !! i) as [ct|]; [|constructor].
  specialize (IH (S i)).
  destruct (thead_cells idx tid types (S i) cols) as [cells res].
  constructor; [apply attr_escape_safe | exact IH].
Qed.

(** X21.  The attribute values a fragment takes from the data are escaped:
    no [data-label] of a cell and no [aria-label] of a header cell holds a
    quote or an angle bracket, whatever the column names hold and whatever
    the markdown function returns for them. *)
Theorem fragment_attributes_are_escaped (E : Env) idx df st :
  frag_setup_of E idx df = Ok st ->
  Forall (fun l => all_chars markup_safe l = true) (fs_labels st)
  /\ Forall (fun c => all_chars markup_safe (th_aria c) = true)
       (setup_thead idx st).1
  /\ length (fs_labels st) = length (t_columns df).
Proof.
  unfold frag_setup_of.
  assert (Hc : (_prepare_table_stream E df).1.1 = t_columns df).
  { unfold _prepare_table_stream.
    destruct (_take_and_stream E (t_rows df) 100) as [[buf it2]|m];
      [reflexivity|].
    destruct (s_fail (t_rows df)); reflexivity. }
  destruct (_prepare_table_stream E df) as [[cols sample] it].
  cbn in Hc. subst cols.
  destruct (_detect_column_types E sample (t_columns df)) as [cts|m];
    [|discriminate].
  destruct (_derive_titles E idx (t_columns df) sample df) as [[[t d] ti] th].
  intros [= <-]. cbn [fs_labels]. split; [|split].
  - apply List.Forall_forall. intros l Hl. apply in_map_iff in Hl.
    destruct Hl as (h & <- & _). apply attr_escape_safe.
  - apply thead_cells_aria.
  - rewrite !length_map. reflexivity.
Qed.

Lemma fragment_attributes_are_escaped_witness :
  frag_setup_of spec_env 1 abc = Ok abc_setup
  /\ Forall (fun l => all_chars markup_safe l = true) (fs_labels abc_setup).
Proof.
  assert (H : frag_setup_of spec_env 1 abc = Ok abc_setup)
    by (vm_compute; reflexivity).
  split; [exact H|].
  exact (proj1 (fragment_attributes_are_escaped spec_env 1 abc abc_setup H)).
Defined.

(** *** The collection loop does not depend on the completion order *)

Section Collect.
Variable E : Env.
Variable fs : gmap string string.

Lemma same_collected_refl a : same_collected a a.
Proof. unfold same_collected. auto. Qed.

Lemma same_collected_trans a b c :
  same_collected a b -> same_collected b c -> same_collected a c.
Proof.
  intros (H1 & H2 & H3 & H4) (G1 & G2 & G3 & G4).
  split; [congruence|]. split; [congruence|]. split; [congruence|].
  etransitivity; eassumption.
Qed.

Lemma collect_one_proper a b r :
  same_collected a b ->
  same_collected (collect_one E fs a r) (collect_one E fs b r).
Proof.
  intros (H1 & H2 & H3 & H4).
  destruct r as [[[[i p] n] ws]|m]; cbn;
    (split; [cbn; congruence|]); (split; [cbn; congruence|]);
    (split; [cbn; congruence|]); cbn; apply Permutation_app_tail, H4.
Qed.

Lemma foldl_collect_proper l : forall a b,
  same_collected a b ->
  same_collected (foldl (collect_one E fs) a l) (foldl (collect_one E fs) b l).
Proof.
  induction l as [|r l IH]; intros a b H; [exact H|].
  cbn. apply IH, collect_one_proper, H.
Qed.

Lemma app_swap_perm {A : Type} (w x y : list A) :
  (w ++ x) ++ y ≡ₚ (w ++ y) ++ x.
Proof.
  rewrite <- !app_assoc. apply Permutation_app_head, Permutation_app_comm.
Qed.

Lemma collect_one_swap a x y :
  (forall i, result_index x = Some i -> result_index y <> Some i) ->
  same_collected (collect_one E fs (collect_one E fs a x) y)
    (collect_one E fs (collect_one E fs a y) x).
Proof.
  intros Hd.
  destruct x as [[[[i p] n] ws]|m], y as [[[[j q] k] ws']|m']; cbn.
  - assert (Hij : i <> j) by (intros ->; exact (Hd j eq_refl eq_refl)).
    split; [cbn; apply insert_insert_ne; congruence|].
    split; [cbn; lia|]. split; [reflexivity | cbn; apply app_swap_perm].
  - do 3 (split; [reflexivity|]). cbn. apply app_swap_perm.
  - do 3 (split; [reflexivity|]). cbn. apply app_swap_perm.
  - do 3 (split; [reflexivity|]). cbn. apply app_swap_perm.
Qed.

Lemma collect_perm l l' :
  l ≡ₚ l' -> NoDup (omap result_index l) ->
  forall a,
    same_collected (foldl (collect_one E fs) a l) (foldl (collect_one E fs) a l').
Proof.
  induction 1 as [|x l l' Hp IH|x y l|l l' l'' Hp1 IH1 Hp2 IH2]; intros Hnd a.
  - apply same_collected_refl.
  - cbn. apply IH. cbn in Hnd.
    destruct (result_index x); [apply NoDup_cons in Hnd; tauto | exact Hnd].
  - cbn. apply foldl_collect_proper, collect_one_swap.
    intros i Hy Hx. cbn in Hnd. rewrite Hy, Hx in Hnd.
    apply NoDup_cons in Hnd. destruct Hnd as [Hin _]. apply Hin. left.
  - eapply same_collected_trans; [apply IH1, Hnd|]. apply IH2.
    rewrite <- Hp1. exact Hnd.
Qed.

End Collect.

(** X22.  What the collection loop gathers does not depend on the order in
    which the tasks complete: for results of distinct tables, any two
    orders give the same fragment map, the same row total and the same
    number of finished tables, and the same warnings up to their order. *)
Theorem collection_ignores_completion_order (E : Env) fs ws results results' :
  results ≡ₚ results' ->
  NoDup (omap result_index results) ->
  same_collected (collect E fs ws results) (collect E fs ws results').
Proof. intros Hp Hnd. unfold collect. apply collect_perm; assumption. Qed.

Lemma collection_ignores_completion_order_witness :
  three_results ≡ₚ reverse three_results
  /\ NoDup (omap result_index three_results)
  /\ same_collected (collect spec_env ∅ [] three_results)
       (collect spec_env ∅ [] (reverse three_results)).
Proof.
  assert (H1 : three_results ≡ₚ reverse three_results)
    by (symmetry; apply reverse_Permutation).
  assert (H2 : NoDup (omap result_index three_results)).
  { cbn. apply NoDup_cons. split; [|apply NoDup_singleton].
    intros H. apply list_elem_of_singleton in H. discriminate H. }
  split; [exact H1|]. split; [exact H2|].
  exact (collection_ignores_completion_order spec_env ∅ [] three_results
           (reverse three_results) H1 H2).
Defined.


(** *** Every unsplit run renders inline *)






(** *** A negative split threshold *)

Lemma total_rows_nonneg tables : 0 <= total_rows_of tables.
Proof.
  unfold total_rows_of. induction tables as [|t tables IH]; cbn; [lia|].
  pose proof (count_rows_nonneg t). unfold sum_Z in IH. lia.
Qed.

Lemma group_loop_negative T : forall rest closed t rc,
  T < 0 -> 0 <= rc ->
  let r := group_loop T (items_of rest) closed [t] rc in
  r.1 ++ [r.2] = closed ++ map (fun x => [x]) (t :: rest).
Proof.
  induction rest as [|u rest IH]; intros closed t rc HT Hrc; [reflexivity|].
  rewrite items_cons. cbn [group_loop].
  pose proof (count_rows_nonneg u) as Hu.
  assert (Hlt : (T <? rc + count_rows u) = true) by (apply Z.ltb_lt; lia).
  rewrite Hlt. cbn [is_nil negb andb].
  rewrite (IH (closed ++ [[t]]) u (count_rows u) HT Hu).
  rewrite <- app_assoc. reflexivity.
Qed.

Lemma group_loop_cur_nonempty T : forall items closed cur rc,
  cur <> [] -> (group_loop T items closed cur rc).2 <> [].
Proof.
  induction items as [|[df n] items IH]; intros closed cur rc Hc; [exact Hc|].
  cbn [group_loop]. destruct (_ && _); apply IH; [discriminate|].
  destruct cur; [congruence | discriminate].
Qed.

(** X25.  A split threshold below zero sends every input down the split
    path, the empty one included, and puts every table in a part of its
    own.  For the empty input the run returns with an index document that
    links no part, reports no output path and writes no document. *)
Theorem negative_threshold_splits_everything (E : Env) fuel fs tables out cfg rh :
  split_threshold cfg < 0 ->
  split_taken cfg tables = true
  /\ split_groups (split_threshold cfg) tables = map (fun t => [t]) tables
  /\ render_html E (S fuel) fs [] out cfg rh
     = Some (write_index E (provision_assets E fs out).1 out (index_html []),
             mkResult (provision_assets E fs out).2 (Some 0%nat) (Some 0)
               (Some []) None None (Some (elapsed_ms E))).
Proof.
  intros HT.
  assert (Hs : forall ts, split_taken cfg ts = true).
  { intros ts. unfold split_taken. pose proof (total_rows_nonneg ts).
    apply andb_true_iff. split.
    - apply negb_true_iff, Z.eqb_neq. lia.
    - apply Z.ltb_lt. lia. }
  split; [apply Hs|]. split.
  - unfold split_groups. fold (items_of tables).
    destruct tables as [|t rest]; [reflexivity|].
    rewrite items_cons. cbn [group_loop is_nil negb andb app].
    rewrite andb_false_r, Z.add_0_l.
    pose proof (group_loop_negative (split_threshold cfg) rest [] t
                  (count_rows t) HT (count_rows_nonneg t)) as Hg.
    pose proof (group_loop_cur_nonempty (split_threshold cfg) (items_of rest)
                  [] [t] (count_rows t) ltac:(discriminate)) as Hne.
    cbv zeta in Hg.
    destruct (group_loop (split_threshold cfg) (items_of rest) [] [t]
                (count_rows t)) as [closed cur].
    cbn [fst snd] in *. destruct cur; [congruence|]. exact Hg.
  - cbn [render_html]. destruct (provision_assets E fs out) as [fs1 ws].
    rewrite (Hs []). reflexivity.
Qed.

Lemma negative_threshold_splits_everything_witness :
  split_threshold negative_threshold < 0
  /\ split_groups (split_threshold negative_threshold) [abc; five_rows]
     = [[abc]; [five_rows]]
  /\ exists fs' res,
       render_html spec_env 1 ∅ [] out_html negative_threshold false
       = Some (fs', res)
       /\ r_output res = None
       /\ fs' !! out_str out_html = None.
Proof.
  assert (H : split_threshold negative_threshold < 0) by reflexivity.
  destruct (negative_threshold_splits_everything spec_env 0 ∅ [abc; five_rows]
              out_html negative_threshold false H) as (_ & Hg & Hr).
  split; [exact H|]. split; [exact Hg|].
  eexists _, _. split; [exact Hr|]. split; [reflexivity|].
  vm_compute. reflexivity.
Defined.

End OrchestratorFacts.
